(** * amqpstorm.io: the transport layer of AMQPStorm, embedded in Rocq

    The development follows [amqpstorm/io.py].  The Python object [self]
    becomes the record [IO], threaded explicitly; the operating system
    (sockets, [select], the resolver, threads) becomes an environment of
    oracles [Env] together with a mutable [World] that records what the
    program did to it.  Loops that may spin forever carry fuel. *)

From Stdlib Require Import ZArith QArith Lia.
From stdpp Require Import base option list strings gmap pretty.

Open Scope string_scope.
Open Scope list_scope.
Open Scope nat_scope.

(** ** Python values and exceptions *)

(** The exception classes that [io.py] raises or catches.  Everything the
    module never names is [OtherException]. *)
Inductive exc_class : Type :=
| socket_timeout
| socket_gaierror
| socket_error
| IOError
| OSError
| AttributeError
| IndexError
| TypeError
| ValueError
| AMQPConnectionError
| OtherException.

(** Values that occur as exception arguments: errno integers, messages, and
    (for [AMQPConnectionError(why)]) another exception. *)
Inductive pyval : Type :=
| VInt (z : Z)
| VStr (s : string)
| VExc (e : pyexc)
with pyexc : Type :=
| Exc (cls : exc_class) (args : list pyval).

Definition exc_cls (e : pyexc) : exc_class := let 'Exc c _ := e in c.
Definition exc_args (e : pyexc) : list pyval := let 'Exc _ a := e in a.

(** Class hierarchy of Python 2.6/2.7, the interpreters [setup.py] lists:
    [socket.timeout] and [socket.gaierror] derive from [socket.error],
    which derives from [IOError]; [OSError] is a sibling of [IOError]. *)
Definition subclass (c d : exc_class) : bool :=
  match d, c with
  | socket_timeout, socket_timeout => true
  | socket_gaierror, socket_gaierror => true
  | socket_error, (socket_error | socket_timeout | socket_gaierror) => true
  | IOError, (IOError | socket_error | socket_timeout | socket_gaierror) => true
  | OSError, OSError => true
  | AttributeError, AttributeError => true
  | IndexError, IndexError => true
  | TypeError, TypeError => true
  | ValueError, ValueError => true
  | AMQPConnectionError, AMQPConnectionError => true
  | OtherException, OtherException => true
  | _, _ => false
  end.

(** [except (c1, c2, ...)]: does the clause catch [e]? *)
Definition catches (clause : list exc_class) (e : pyexc) : bool :=
  existsb (subclass (exc_cls e)) clause.

(** [v == z] for an integer [z]. *)
Definition py_eq_int (v : pyval) (z : Z) : bool :=
  match v with
  | VInt n => Z.eqb n z
  | _ => false
  end.

(** [v in (z1, z2, ...)]. *)
Definition py_in (v : pyval) (t : list Z) : bool := existsb (py_eq_int v) t.

(** ** Bytes, addresses, sockets *)

Definition bytes : Type := list Byte.byte.
Definition EMPTY_BUFFER : bytes := [].
Definition POLL_TIMEOUT : Q := Qmake 1 10.

(** Constants of the [socket] module (Linux values). *)
Definition AF_UNSPEC : Z := 0.
Definition AF_INET : Z := 2.
Definition SOCK_STREAM : Z := 1.
Definition SHUT_RDWR : Z := 2.

(** The pair passed to [connect], and the 5-tuple that [getaddrinfo]
    yields: [address[0]] is the family and [address[4]] the sockaddr. *)
Record sockaddr : Type := { sa_host : string; sa_port : Z }.
Record addrinfo : Type := {
  ai_family : Z;
  ai_socktype : Z;
  ai_proto : Z;
  ai_canonname : string;
  ai_sockaddr : sockaddr
}.

Record Socket : Type := {
  sock_family : Z;
  sock_type : Z;
  sock_proto : Z;
  sock_timeout : option Z;
  sock_ssl : option (gmap string pyval);
  sock_peer : option sockaddr
}.

Definition select_args : Type := list Socket * list Socket * list Socket * Q.

Record Poller : Type := {
  read : select_args;
  write : select_args
}.

Record Thread : Type := { thread_name : string; daemon : bool }.

Record Parameters : Type := {
  hostname : string;
  port : Z;
  timeout : option Z;
  ssl : bool;
  ssl_options : gmap string pyval
}.

(** The fields of an [IO] instance.  [_exceptions] and [_on_read_impl]
    default to [None] in the constructor. *)
Record IO : Type := {
  _exceptions : option (list pyexc);
  _inbound_thread : option Thread;
  _on_read_impl : option (bytes -> bytes);
  _running : bool;
  _parameters : Parameters;
  data_in : bytes;
  poller : option Poller;
  socket : option Socket;
  use_ssl : bool
}.

Definition set_exceptions (v : option (list pyexc)) (io : IO) : IO :=
  {| _exceptions := v; _inbound_thread := _inbound_thread io;
     _on_read_impl := _on_read_impl io; _running := _running io;
     _parameters := _parameters io; data_in := data_in io;
     poller := poller io; socket := socket io; use_ssl := use_ssl io |}.

Definition set_inbound_thread (v : option Thread) (io : IO) : IO :=
  {| _exceptions := _exceptions io; _inbound_thread := v;
     _on_read_impl := _on_read_impl io; _running := _running io;
     _parameters := _parameters io; data_in := data_in io;
     poller := poller io; socket := socket io; use_ssl := use_ssl io |}.

Definition set_running (v : bool) (io : IO) : IO :=
  {| _exceptions := _exceptions io; _inbound_thread := _inbound_thread io;
     _on_read_impl := _on_read_impl io; _running := v;
     _parameters := _parameters io; data_in := data_in io;
     poller := poller io; socket := socket io; use_ssl := use_ssl io |}.

Definition set_parameters (v : Parameters) (io : IO) : IO :=
  {| _exceptions := _exceptions io; _inbound_thread := _inbound_thread io;
     _on_read_impl := _on_read_impl io; _running := _running io;
     _parameters := v; data_in := data_in io;
     poller := poller io; socket := socket io; use_ssl := use_ssl io |}.

Definition set_data_in (v : bytes) (io : IO) : IO :=
  {| _exceptions := _exceptions io; _inbound_thread := _inbound_thread io;
     _on_read_impl := _on_read_impl io; _running := _running io;
     _parameters := _parameters io; data_in := v;
     poller := poller io; socket := socket io; use_ssl := use_ssl io |}.

Definition set_poller (v : option Poller) (io : IO) : IO :=
  {| _exceptions := _exceptions io; _inbound_thread := _inbound_thread io;
     _on_read_impl := _on_read_impl io; _running := _running io;
     _parameters := _parameters io; data_in := data_in io;
     poller := v; socket := socket io; use_ssl := use_ssl io |}.

Definition set_socket (v : option Socket) (io : IO) : IO :=
  {| _exceptions := _exceptions io; _inbound_thread := _inbound_thread io;
     _on_read_impl := _on_read_impl io; _running := _running io;
     _parameters := _parameters io; data_in := data_in io;
     poller := poller io; socket := v; use_ssl := use_ssl io |}.

(** ** The environment *)

(** What a call to [send] or [recv] does.  [Accept k]: the kernel has room
    for [k] bytes, so [send] takes the first [min k (len data)] bytes and
    returns that count. *)
Inductive send_outcome : Type :=
| Accept (k : nat)
| SendRaises (e : pyexc).

Inductive recv_outcome : Type :=
| Recv (data : bytes)
| RecvRaises (e : pyexc).

(** Calls into the operating system that reach the peer, the resolver or a
    thread, in the order the program made them.  Making a socket object
    ([socket.socket], [settimeout], [ssl.wrap_socket]) is not recorded. *)
Inductive event : Type :=
| EvSelect (args : select_args)
| EvSend (sock : Socket) (data : bytes)
| EvRecv (sock : Socket) (bufsize : Z)
| EvGetaddrinfo (host : string) (port : Z) (family socktype : Z)
| EvConnect (sock : Socket) (addr : sockaddr)
| EvShutdown (sock : Socket) (how : Z)
| EvClose (sock : Socket)
| EvStart (t : Thread)
| EvJoin (t : Thread).

(** The mutable outside world: the history of system calls and the bytes
    the peer has received from us. *)
Record World : Type := {
  trace : list event;
  wire : bytes
}.

(** The logical clock: the number of system calls made so far. *)
Definition clock (w : World) : nat := length (trace w).

Definition log (ev : event) (w : World) : World :=
  {| trace := trace w ++ [ev]; wire := wire w |}.

Definition transmit (b : bytes) (w : World) : World :=
  {| trace := trace w; wire := wire w ++ b |}.

(** Module-level constants imported from elsewhere and the behaviour of the
    operating system.  The oracles for [select], [send], [recv], [shutdown]
    and [close] are indexed by the clock; a [select] answer tells whether
    the descriptor is readable, writable, in an exceptional condition.
    [socket_result] tells whether [socket.socket(family, type, proto)]
    raises, [wrap_socket_result] whether [ssl.wrap_socket] does, given the
    socket and the keyword options. *)
Record Env : Type := {
  EWOULDBLOCK : Z;
  EAGAIN : Z;
  MAX_FRAME_SIZE : Z;
  has_ipv6 : bool;
  SSL_SUPPORTED : bool;
  DEFAULT_SSL_VERSION : pyval;
  getaddrinfo_result : string -> Z -> Z -> Z -> pyexc + list addrinfo;
  connect_result : Socket -> sockaddr -> option pyexc;
  socket_result : Z -> Z -> Z -> option pyexc;
  wrap_socket_result : Socket -> gmap string pyval -> option pyexc;
  select_result : nat -> bool * bool * bool;
  send_result : nat -> send_outcome;
  recv_result : nat -> recv_outcome;
  shutdown_result : nat -> option pyexc;
  close_result : nat -> option pyexc
}.

(** ** A monad for Python methods

    A method runs on [self] and the world and either returns, raises (the
    state changes made before the [raise] persist), or is still looping
    when the fuel is gone. *)
Inductive outcome (A : Type) : Type :=
| Ret (a : A) (io : IO) (w : World)
| Raise (e : pyexc) (io : IO) (w : World)
| OutOfFuel.
Arguments Ret {A} a io w.
Arguments Raise {A} e io w.
Arguments OutOfFuel {A}.

Definition M (A : Type) : Type := IO -> World -> outcome A.

Definition ret {A} (a : A) : M A := fun io w => Ret a io w.
Definition raise {A} (e : pyexc) : M A := fun io w => Raise e io w.
Definition out_of_fuel {A} : M A := fun _ _ => OutOfFuel.

Definition bind {A B} (m : M A) (k : A -> M B) : M B :=
  fun io w =>
    match m io w with
    | Ret a io' w' => k a io' w'
    | Raise e io' w' => Raise e io' w'
    | OutOfFuel => OutOfFuel
    end.

(** [try: body  except ...: handler]: the handler answers [None] when no
    clause matches, and the exception propagates. *)
Definition try_except {A} (body : M A) (handler : pyexc -> option (M A)) : M A :=
  fun io w =>
    match body io w with
    | Raise e io' w' =>
        match handler e with
        | Some h => h io' w'
        | None => Raise e io' w'
        end
    | r => r
    end.

Declare Scope py_scope.
Delimit Scope py_scope with py.
Notation "x <- m ;; k" := (bind m (fun x => k))
  (at level 100, m at next level, right associativity) : py_scope.
Notation "m ;;; k" := (bind m (fun _ => k))
  (at level 100, right associativity) : py_scope.
Open Scope py_scope.

Definition get_self : M IO := fun io w => Ret io io w.
Definition modify_self (f : IO -> IO) : M unit := fun io w => Ret tt (f io) w.
Definition get_world : M World := fun io w => Ret w io w.
Definition modify_world (f : World -> World) : M unit := fun io w => Ret tt io (f w).

(** [obj.attr] on an attribute that may hold [None]. *)
Definition attr_of {A B} (o : option A) (k : A -> M B) : M B :=
  match o with
  | Some a => k a
  | None => raise (Exc AttributeError [VStr "'NoneType' object has no attribute"])
  end.

(** [e.args[i]]. *)
Definition args_getitem (e : pyexc) (i : nat) : M pyval :=
  match exc_args e !! i with
  | Some v => ret v
  | None => raise (Exc IndexError [VStr "tuple index out of range"])
  end.

(** [self._exceptions.append(e)]. *)
Definition exceptions_append (e : pyexc) : M unit :=
  io <- get_self ;;
  attr_of (_exceptions io) (fun l => modify_self (set_exceptions (Some (l ++ [e])))).

(** Truth value of a Python list. *)
Definition truthy {A} (l : list A) : bool :=
  match l with
  | [] => false
  | _ :: _ => true
  end.

Section Transport.
Context (env : Env).

(** ** System calls *)

(** [select.select(rlist, wlist, xlist, timeout)]: the subsets that are
    ready, as told by the oracle. *)
Definition select_select (args : select_args)
  : M (list Socket * list Socket * list Socket) :=
  w <- get_world ;;
  modify_world (log (EvSelect args)) ;;;
  let '(rlist, wlist, xlist, _) := args in
  let '(r, wr, x) := select_result env (clock w) in
  ret (if r then rlist else [], if wr then wlist else [], if x then xlist else []).

(** [sock.send(data)]: the number of bytes taken, at most [len(data)]. *)
Definition socket_send (sock : Socket) (data : bytes) : M nat :=
  w <- get_world ;;
  modify_world (log (EvSend sock data)) ;;;
  match send_result env (clock w) with
  | Accept k =>
      let n := Nat.min k (length data) in
      modify_world (transmit (take n data)) ;;;
      ret n
  | SendRaises e => raise e
  end.

(** [sock.recv(bufsize)]: at most [bufsize] bytes. *)
Definition socket_recv (sock : Socket) (bufsize : Z) : M bytes :=
  w <- get_world ;;
  modify_world (log (EvRecv sock bufsize)) ;;;
  match recv_result env (clock w) with
  | Recv data => ret (take (Z.to_nat bufsize) data)
  | RecvRaises e => raise e
  end.

Definition socket_shutdown (sock : Socket) (how : Z) : M unit :=
  w <- get_world ;;
  modify_world (log (EvShutdown sock how)) ;;;
  match shutdown_result env (clock w) with
  | None => ret tt
  | Some e => raise e
  end.

Definition socket_close (sock : Socket) : M unit :=
  w <- get_world ;;
  modify_world (log (EvClose sock)) ;;;
  match close_result env (clock w) with
  | None => ret tt
  | Some e => raise e
  end.

(** [sock.connect(addr)]: on success the socket object is connected. *)
Definition socket_connect (sock : Socket) (addr : sockaddr) : M Socket :=
  modify_world (log (EvConnect sock addr)) ;;;
  match connect_result env sock addr with
  | None =>
      ret {| sock_family := sock_family sock; sock_type := sock_type sock;
             sock_proto := sock_proto sock; sock_timeout := sock_timeout sock;
             sock_ssl := sock_ssl sock; sock_peer := Some addr |}
  | Some e => raise e
  end.

(** [socket.socket(family, type, proto)]: a fresh, blocking, unconnected
    socket, unless the system refuses to create one. *)
Definition socket_socket (family type proto : Z) : M Socket :=
  match socket_result env family type proto with
  | None =>
      ret {| sock_family := family; sock_type := type; sock_proto := proto;
             sock_timeout := None; sock_ssl := None; sock_peer := None |}
  | Some e => raise e
  end.

(** [sock.settimeout(value)]: [None] means blocking; a negative number is
    refused with [ValueError]. *)
Definition socket_settimeout (sock : Socket) (value : option Z) : M Socket :=
  match value with
  | Some t =>
      if (t <? 0)%Z
      then raise (Exc ValueError [VStr "Timeout value out of range"])
      else ret {| sock_family := sock_family sock; sock_type := sock_type sock;
                  sock_proto := sock_proto sock; sock_timeout := Some t;
                  sock_ssl := sock_ssl sock; sock_peer := sock_peer sock |}
  | None =>
      ret {| sock_family := sock_family sock; sock_type := sock_type sock;
             sock_proto := sock_proto sock; sock_timeout := None;
             sock_ssl := sock_ssl sock; sock_peer := sock_peer sock |}
  end.

(** [ssl.wrap_socket(sock, do_handshake_on_connect=True, **options)]: the
    socket with a TLS session to be negotiated on connect, unless the
    options are unusable. *)
Definition ssl_wrap_socket (sock : Socket) (options : gmap string pyval)
  : M Socket :=
  match wrap_socket_result env sock options with
  | None =>
      ret {| sock_family := sock_family sock; sock_type := sock_type sock;
             sock_proto := sock_proto sock; sock_timeout := sock_timeout sock;
             sock_ssl := Some options; sock_peer := sock_peer sock |}
  | Some e => raise e
  end.

Definition socket_getaddrinfo (host : string) (p family socktype : Z)
  : M (list addrinfo) :=
  modify_world (log (EvGetaddrinfo host p family socktype)) ;;;
  match getaddrinfo_result env host p family socktype with
  | inr addresses => ret addresses
  | inl e => raise e
  end.

Definition thread_start (t : Thread) : M unit := modify_world (log (EvStart t)).
Definition thread_join (t : Thread) : M unit := modify_world (log (EvJoin t)).

(** ** class Poller *)

Definition Poller_init (fd : Socket) : Poller :=
  {| read := ([fd], [], [], POLL_TIMEOUT);
     write := ([fd], [fd], [fd], POLL_TIMEOUT) |}.

Definition ready_to_write (p : Poller) : M (list Socket) :=
  ready <- select_select (write p) ;;
  let '(_, wlist, xlist) := ready in
  if truthy xlist
  then raise (Exc socket_error [VStr "connection/socket error"])
  else ret wlist.

Definition ready_to_read (p : Poller) : M (list Socket) :=
  ready <- select_select (read p) ;;
  let '(rlist, _, _) := ready in
  ret rlist.

(** ** class IO *)

Definition IO_init (parameters : Parameters) (exceptions : option (list pyexc))
    (on_read_impl : option (bytes -> bytes)) : IO :=
  {| _exceptions := exceptions;
     _inbound_thread := None;
     _on_read_impl := on_read_impl;
     _running := false;
     _parameters := parameters;
     data_in := EMPTY_BUFFER;
     poller := None;
     socket := None;
     use_ssl := ssl parameters |}.

Definition _close_socket : M unit :=
  try_except
    (io <- get_self ;;
     attr_of (socket io) (fun sock => socket_shutdown sock SHUT_RDWR) ;;;
     io <- get_self ;;
     attr_of (socket io) (fun sock => socket_close sock))
    (fun e => if catches [OSError; socket_error] e then Some (ret tt) else None).

Definition close : M unit :=
  modify_self (set_running false) ;;;
  io <- get_self ;;
  match _inbound_thread io with
  | Some t => thread_join t
  | None => ret tt
  end ;;;
  io <- get_self ;;
  match socket io with
  | Some _ => _close_socket
  | None => ret tt
  end ;;;
  modify_self (set_inbound_thread None) ;;;
  modify_self (set_poller None) ;;;
  modify_self (set_socket None).

(** One pass through the body of the [while] loop of [write_to_socket]:
    go round again with a new cursor, or [return]. *)
Inductive loop_step : Type :=
| Next (total_bytes_written : nat)
| Return.

(** The [try] block. *)
Definition write_attempt (frame_data : bytes) (total_bytes_written : nat)
  : M loop_step :=
  io <- get_self ;;
  match socket io with
  | None => raise (Exc socket_error [VStr "connection/socket error"])
  | Some sock =>
      attr_of (poller io) (fun p =>
        wlist <- ready_to_write p ;;
        if negb (truthy wlist) then ret (Next total_bytes_written)
        else
          bytes_written <- socket_send sock (drop total_bytes_written frame_data) ;;
          if bytes_written =? 0
          then raise (Exc socket_error [VStr "connection/socket error"])
          else ret (Next (total_bytes_written + bytes_written)))
  end.

(** The [except] clauses. *)
Definition write_handler (total_bytes_written : nat) (why : pyexc)
  : option (M loop_step) :=
  if catches [socket_timeout] why then Some (ret (Next total_bytes_written))
  else if catches [socket_error] why then
    Some (a <- args_getitem why 0 ;;
          if py_in a [EWOULDBLOCK env; EAGAIN env]
          then ret (Next total_bytes_written)
          else
            exceptions_append (Exc AMQPConnectionError [VExc why]) ;;;
            ret Return)
  else None.

Definition write_body (frame_data : bytes) (total_bytes_written : nat)
  : M loop_step :=
  try_except (write_attempt frame_data total_bytes_written)
             (write_handler total_bytes_written).

(** The loop, from a given cursor; it yields the cursor it stopped at. *)
Fixpoint write_loop (fuel : nat) (frame_data : bytes) (total_bytes_written : nat)
  : M nat :=
  let bytes_to_send := length frame_data in
  if total_bytes_written <? bytes_to_send then
    match fuel with
    | O => out_of_fuel
    | S fuel' =>
        step <- write_body frame_data total_bytes_written ;;
        match step with
        | Next total' => write_loop fuel' frame_data total'
        | Return => ret total_bytes_written
        end
    end
  else ret total_bytes_written.

Definition write_to_socket (fuel : nat) (frame_data : bytes) : M unit :=
  write_loop fuel frame_data 0 ;;;
  ret tt.

Definition _get_socket_addresses : M (list addrinfo) :=
  let family := if negb (has_ipv6 env) then AF_INET else AF_UNSPEC in
  try_except
    (io <- get_self ;;
     socket_getaddrinfo (hostname (_parameters io)) (port (_parameters io))
                        family SOCK_STREAM)
    (fun why =>
       if catches [socket_gaierror] why
       then Some (raise (Exc AMQPConnectionError [VExc why]))
       else None).

(** [x or None] for an optional number. *)
Definition or_None (x : option Z) : option Z :=
  match x with
  | Some 0%Z => None
  | _ => x
  end.

Definition _ssl_wrap_socket (sock : Socket) : M Socket :=
  io <- get_self ;;
  let params := _parameters io in
  match ssl_options params !! "ssl_version" with
  | None =>
      modify_self (set_parameters
        {| hostname := hostname params; port := port params;
           timeout := timeout params; ssl := ssl params;
           ssl_options := <["ssl_version" := DEFAULT_SSL_VERSION env]> (ssl_options params) |})
  | Some _ => ret tt
  end ;;;
  io <- get_self ;;
  ssl_wrap_socket sock (ssl_options (_parameters io)).

Definition _create_socket (socket_family : Z) : M Socket :=
  sock <- socket_socket socket_family SOCK_STREAM 0 ;;
  io <- get_self ;;
  sock <- socket_settimeout sock (or_None (timeout (_parameters io))) ;;
  io <- get_self ;;
  if use_ssl io then
    if negb (SSL_SUPPORTED env)
    then raise (Exc AMQPConnectionError
                  [VStr "Python not compiled with support for TLSv1 or higher"])
    else _ssl_wrap_socket sock
  else ret sock.

Fixpoint _find_address_and_connect (addresses : list addrinfo) : M Socket :=
  match addresses with
  | address :: rest =>
      sock <- _create_socket (ai_family address) ;;
      connected <- try_except
                     (s <- socket_connect sock (ai_sockaddr address) ;; ret (Some s))
                     (fun e => if catches [IOError; OSError] e
                               then Some (ret None) else None) ;;
      match connected with
      | Some s => ret s
      | None => _find_address_and_connect rest
      end
  | [] =>
      io <- get_self ;;
      raise (Exc AMQPConnectionError
               [VStr ("Could not connect to " +:+ hostname (_parameters io)
                      +:+ ":" +:+ pretty (port (_parameters io)))])
  end.

Definition _create_inbound_thread : M Thread :=
  let inbound_thread := {| thread_name := "amqpstorm.io"; daemon := true |} in
  thread_start inbound_thread ;;;
  ret inbound_thread.

Definition open : M unit :=
  modify_self (set_data_in EMPTY_BUFFER) ;;;
  modify_self (set_running true) ;;;
  sock_addresses <- _get_socket_addresses ;;
  sock <- _find_address_and_connect sock_addresses ;;
  modify_self (set_socket (Some sock)) ;;;
  modify_self (set_poller (Some (Poller_init sock))) ;;;
  t <- _create_inbound_thread ;;
  modify_self (set_inbound_thread (Some t)).

(** The [except] clauses of [_receive]; [data_in] is the local variable,
    still the empty buffer. *)
Definition receive_handler (data_in : bytes) (why : pyexc) : option (M bytes) :=
  if catches [socket_timeout] why then Some (ret data_in)
  else if catches [IOError; OSError] why then
    Some (a <- args_getitem why 0 ;;
          if negb (py_in a [EWOULDBLOCK env; EAGAIN env])
          then
            exceptions_append (Exc AMQPConnectionError [VExc why]) ;;;
            modify_self (set_running false) ;;;
            ret data_in
          else ret data_in)
  else None.

Definition _receive : M bytes :=
  let data_in := EMPTY_BUFFER in
  try_except
    (io <- get_self ;;
     match socket io with
     | None => raise (Exc socket_error [VStr "connection/socket error"])
     | Some sock => socket_recv sock (MAX_FRAME_SIZE env)
     end)
    (receive_handler data_in).

(** The body of the [while] loop of [_process_incoming_data]. *)
Definition process_iteration : M unit :=
  io <- get_self ;;
  attr_of (poller io) (fun p =>
    rlist <- ready_to_read p ;;
    if truthy rlist then
      io <- get_self ;;
      let before := data_in io in
      received <- _receive ;;
      modify_self (set_data_in (before ++ received)) ;;;
      io <- get_self ;;
      match _on_read_impl io with
      | Some on_read => modify_self (set_data_in (on_read (data_in io)))
      | None => raise (Exc TypeError [VStr "'NoneType' object is not callable"])
      end
    else ret tt).

Fixpoint _process_incoming_data (fuel : nat) : M unit :=
  io <- get_self ;;
  if _running io then
    match fuel with
    | O => out_of_fuel
    | S fuel' => process_iteration ;;; _process_incoming_data fuel'
    end
  else ret tt.

End Transport.

(** * Properties *)

(** Unfold the monad and the straight-line helpers. *)
Ltac run :=
  cbv beta delta
    [bind ret raise out_of_fuel try_except get_self modify_self get_world
     modify_world attr_of args_getitem exceptions_append] in *;
  cbn beta iota in *.

(** ** A concrete scene for the examples

    Linux errno values, a loopback broker on port 5672, a socket connected
    to it, and an operating system that is always ready and accepts or
    delivers everything. *)
Module Scene.

Definition broker : sockaddr := {| sa_host := "127.0.0.1"; sa_port := 5672 |}.

Definition candidate : addrinfo :=
  {| ai_family := AF_INET; ai_socktype := SOCK_STREAM; ai_proto := 6;
     ai_canonname := ""; ai_sockaddr := broker |}.

Definition sock : Socket :=
  {| sock_family := AF_INET; sock_type := SOCK_STREAM; sock_proto := 0;
     sock_timeout := Some 30%Z; sock_ssl := None; sock_peer := Some broker |}.

Definition parameters : Parameters :=
  {| hostname := "localhost"; port := 5672; timeout := Some 30%Z;
     ssl := false; ssl_options := ∅ |}.

Definition cooperative : Env :=
  {| EWOULDBLOCK := 11; EAGAIN := 11; MAX_FRAME_SIZE := 131072;
     has_ipv6 := true; SSL_SUPPORTED := true; DEFAULT_SSL_VERSION := VInt 3;
     getaddrinfo_result := fun _ _ _ _ => inr [candidate];
     connect_result := fun _ _ => None;
     socket_result := fun _ _ _ => None;
     wrap_socket_result := fun _ _ => None;
     select_result := fun _ => (true, true, false);
     send_result := fun _ => Accept 4096;
     recv_result := fun _ => Recv [];
     shutdown_result := fun _ => None;
     close_result := fun _ => None |}.

(** The same system with other answers from [select], [send] and [recv]. *)
Definition with_io (sel : nat -> bool * bool * bool) (snd : nat -> send_outcome)
    (rcv : nat -> recv_outcome) : Env :=
  {| EWOULDBLOCK := 11; EAGAIN := 11; MAX_FRAME_SIZE := 131072;
     has_ipv6 := true; SSL_SUPPORTED := true; DEFAULT_SSL_VERSION := VInt 3;
     getaddrinfo_result := fun _ _ _ _ => inr [candidate];
     connect_result := fun _ _ => None;
     socket_result := fun _ _ _ => None;
     wrap_socket_result := fun _ _ => None;
     select_result := sel;
     send_result := snd;
     recv_result := rcv;
     shutdown_result := fun _ => None;
     close_result := fun _ => None |}.

(** A transport that was never opened, with and without an error sink. *)
Definition fresh : IO := IO_init parameters (Some []) (Some (fun b => b)).

(** A transport as [open] leaves it. *)
Definition opened : IO :=
  set_inbound_thread (Some {| thread_name := "amqpstorm.io"; daemon := true |})
    (set_poller (Some (Poller_init sock))
       (set_socket (Some sock) (set_running true fresh))).

Definition quiet : World := {| trace := []; wire := [] |}.

Definition message : bytes := [Byte.x48; Byte.x69; Byte.x21].

End Scene.

Example open_on_cooperative_system :
  open Scene.cooperative Scene.fresh Scene.quiet
  = Ret tt Scene.opened
      {| trace := [EvGetaddrinfo "localhost" 5672 AF_UNSPEC SOCK_STREAM;
                   EvConnect {| sock_family := AF_INET; sock_type := SOCK_STREAM;
                                sock_proto := 0; sock_timeout := Some 30%Z;
                                sock_ssl := None; sock_peer := None |}
                             Scene.broker;
                   EvStart {| thread_name := "amqpstorm.io"; daemon := true |}];
         wire := [] |}.
Proof. reflexivity. Qed.

Example write_on_cooperative_system :
  write_to_socket Scene.cooperative 1 Scene.message Scene.opened Scene.quiet
  = Ret tt Scene.opened
      {| trace := [EvSelect (write (Poller_init Scene.sock));
                   EvSend Scene.sock Scene.message];
         wire := Scene.message |}.
Proof. reflexivity. Qed.

(** ** The readiness poller *)

(** C7.  On a poller built for descriptor [fd], whatever [select] answers:
    [ready_to_write] waits on [fd] in all three sets with [POLL_TIMEOUT],
    raises [socket.error] when the exceptional set comes back non-empty and
    otherwise returns the writable set; [ready_to_read] waits with empty
    write and exceptional sets, so no exceptional condition can come back,
    and returns the readable set without ever raising. *)
Theorem Poller_readiness (env : Env) (fd : Socket) (io : IO) (w : World) :
  ready_to_write env (Poller_init fd) io w
  = (if (select_result env (clock w)).2
     then Raise (Exc socket_error [VStr "connection/socket error"]) io
            (log (EvSelect ([fd], [fd], [fd], POLL_TIMEOUT)) w)
     else Ret (if (select_result env (clock w)).1.2 then [fd] else []) io
            (log (EvSelect ([fd], [fd], [fd], POLL_TIMEOUT)) w))
  /\ ready_to_read env (Poller_init fd) io w
     = Ret (if (select_result env (clock w)).1.1 then [fd] else []) io
         (log (EvSelect ([fd], [], [], POLL_TIMEOUT)) w).
Proof.
  unfold ready_to_write, ready_to_read, select_select. run.
  destruct (select_result env (clock w)) as [[r wr] x]. cbn.
  split; [destruct x|]; reflexivity.
Qed.

(** ** Writing *)

(** C9.  With an empty buffer [write_to_socket] returns at once, whatever
    the fuel: [self] and the world are untouched, so there was no readiness
    wait, no send and no append to the sink, with or without a socket. *)
Theorem write_to_socket_empty (env : Env) (fuel : nat) (io : IO) (w : World) :
  write_to_socket env fuel [] io w = Ret tt io w.
Proof. destruct fuel; reflexivity. Qed.

(** The first argument of an exception, tested against the two errno
    values that mean "try again". *)
Definition would_block (env : Env) (e : pyexc) : option bool :=
  match exc_args e !! 0 with
  | Some a => Some (py_in a [EWOULDBLOCK env; EAGAIN env])
  | None => None
  end.

(** A transient condition for an [except] clause on [classes]:
    [socket.timeout], or an exception the clause catches whose first
    argument is [EWOULDBLOCK] or [EAGAIN]. *)
Definition transient (env : Env) (classes : list exc_class) (e : pyexc) : bool :=
  catches [socket_timeout] e
  || (catches classes e && bool_decide (would_block env e = Some true)).


(** No readiness wait ever reports an exceptional condition. *)
Definition never_exceptional (env : Env) : Prop :=
  forall t, (select_result env t).2 = false.

(** Every send attempt takes at least one byte or raises a transient
    condition. *)
Definition sends_cooperate (env : Env) : Prop :=
  forall t, match send_result env t with
            | Accept k => 0 < k
            | SendRaises e => transient env [socket_error] e = true
            end.

Lemma write_handler_transient env total e :
  transient env [socket_error] e = true ->
  write_handler env total e = Some (ret (Next total)).
Proof.
  unfold transient, write_handler, would_block. run.
  destruct (catches [socket_timeout] e); [done|].
  destruct (catches [socket_error] e); cbn; [|done].
  destruct (exc_args e !! 0) as [a|]; cbn; [|done].
  case_bool_decide as Hb; [|done]. intros _.
  injection Hb as ->. reflexivity.
Qed.

Lemma write_loop_sends_all env :
  never_exceptional env -> sends_cooperate env ->
  forall fuel frame_data total io w n io' w',
    is_Some (socket io) ->
    write_loop env fuel frame_data total io w = Ret n io' w' ->
    total <= length frame_data ->
    n = length frame_data /\ io' = io
    /\ wire w' = wire w ++ drop total frame_data.
Proof.
  intros Hx Hs fuel frame_data.
  induction fuel as [|fuel IH]; intros total io w n io' w' [sock Hsock] Hrun Hle;
    cbn [write_loop] in Hrun;
    destruct (total <? length frame_data) eqn:Hlt.
  - discriminate.
  - injection Hrun as <- <- <-. apply Nat.ltb_ge in Hlt.
    rewrite drop_ge, app_nil_r by lia. split; [lia|done].
  - apply Nat.ltb_lt in Hlt.
    unfold write_body, write_attempt, ready_to_write, select_select,
      socket_send in Hrun. run. rewrite Hsock in Hrun.
    destruct (poller io) as [p|]; [|discriminate].
    destruct (write p) as [[[rl wl] xl] tmo].
    specialize (Hx (clock w)). specialize (Hs (clock (log (EvSelect (rl, wl, xl, tmo)) w))).
    destruct (select_result env (clock w)) as [[r wr] x]. cbn in Hx. subst x.
    cbn in Hrun.
    destruct (truthy (if wr then wl else [])).
    + cbn in Hrun.
      destruct (send_result env _) as [k|e].
      * cbn in Hrun.
        assert (Hn : 0 < k `min` length (drop total frame_data))
          by (rewrite length_drop; lia).
        destruct (k `min` length (drop total frame_data) =? 0) eqn:Hz;
          [apply Nat.eqb_eq in Hz; lia|].
        apply IH in Hrun; [|by eexists|rewrite length_drop in *; lia].
        destruct Hrun as (-> & -> & ->). cbn.
        rewrite <- app_assoc, <- (drop_drop frame_data), take_drop. done.
      * rewrite (write_handler_transient _ _ _ Hs) in Hrun.
        apply IH in Hrun; [|by eexists|lia].
        destruct Hrun as (-> & -> & ->). done.
    + cbn in Hrun. apply IH in Hrun; [|by eexists|lia].
      destruct Hrun as (-> & -> & ->). done.
  - injection Hrun as <- <- <-. apply Nat.ltb_ge in Hlt.
    rewrite drop_ge, app_nil_r by lia. split; [lia|done].
Qed.

Lemma write_to_socket_loop env fuel frame_data io w io' w' :
  write_to_socket env fuel frame_data io w = Ret tt io' w' <->
  exists n, write_loop env fuel frame_data 0 io w = Ret n io' w'.
Proof.
  unfold write_to_socket. run.
  destruct (write_loop env fuel frame_data 0 io w) as [n io1 w1|e io1 w1|].
  - split; [intros [= <- <-]; by eexists|intros [m [= _ <- <-]]; done].
  - split; [done|intros [? ?]; done].
  - split; [done|intros [? ?]; done].
Qed.

(** A send that raises a transient condition: the loop goes round again
    with the same cursor, the same [self], and nothing more on the wire. *)
Lemma write_body_retries env frame_data total io w sock p wlist w1 e :
  socket io = Some sock -> poller io = Some p ->
  ready_to_write env p io w = Ret wlist io w1 -> truthy wlist = true ->
  send_result env (clock w1) = SendRaises e ->
  transient env [socket_error] e = true ->
  write_body env frame_data total io w
  = Ret (Next total) io (log (EvSend sock (drop total frame_data)) w1).
Proof.
  intros Hsock Hp Hready Hw Hsend He.
  unfold write_body, write_attempt, socket_send. run.
  rewrite Hsock, Hp, Hready, Hw. cbn. rewrite Hsend.
  rewrite (write_handler_transient _ _ _ He). reflexivity.
Qed.

(** On a system that is always writable and always takes at least one
    byte, fuel for one round per byte is enough for the call to return. *)
Lemma write_loop_returns env fd :
  (forall t, (select_result env t).1.2 = true) ->
  never_exceptional env ->
  (forall t, exists k, send_result env t = Accept k /\ 0 < k) ->
  forall fuel frame_data total io w,
    socket io = Some fd -> poller io = Some (Poller_init fd) ->
    length frame_data - total <= fuel ->
    exists n w', write_loop env fuel frame_data total io w = Ret n io w'.
Proof.
  intros Hwr Hx Hs fuel frame_data.
  induction fuel as [|fuel IH]; intros total io w Hsock Hp Hfuel;
    cbn [write_loop]; destruct (total <? length frame_data) eqn:Hlt;
    try (by eexists _, _).
  - apply Nat.ltb_lt in Hlt. lia.
  - apply Nat.ltb_lt in Hlt.
    unfold write_body, write_attempt, ready_to_write, select_select,
      socket_send. run. rewrite Hsock, Hp. cbn.
    specialize (Hx (clock w)). specialize (Hwr (clock w)).
    destruct (select_result env (clock w)) as [[r wr] x]. cbn in Hx, Hwr.
    subst x wr. cbn.
    match goal with
    | |- context [send_result env ?t] => destruct (Hs t) as (k & -> & Hk)
    end. cbn.
    assert (Hn : 0 < k `min` length (drop total frame_data))
      by (rewrite length_drop; lia).
    destruct (k `min` length (drop total frame_data) =? 0) eqn:Hz;
      [apply Nat.eqb_eq in Hz; lia|].
    apply IH; [done..|]. lia.
Qed.

Module Scene_exceptional.

(** A system on which every send would be taken, but [select] reports an
    exceptional condition on the descriptor. *)
Definition env : Env :=
  Scene.with_io (fun _ => (true, true, true)) (fun _ => Accept 4096)
                (fun _ => Recv []).

Definition why : pyexc := Exc socket_error [VStr "connection/socket error"].

Definition after : IO :=
  set_exceptions (Some [Exc AMQPConnectionError [VExc why]]) Scene.opened.

Definition world : World :=
  {| trace := [EvSelect (write (Poller_init Scene.sock))]; wire := [] |}.

End Scene_exceptional.

(** C1, as stated, fails: the buffer is non-empty, the socket exists and
    every send attempt would take bytes, yet the readiness wait reports an
    exceptional condition, [ready_to_write] raises inside the [try], and the
    call returns normally with the cursor at 0, nothing on the wire and a
    [ConnectionError] in the sink. *)
Lemma write_to_socket_exceptional_counterexample :
  Scene.message <> []
  /\ socket Scene.opened = Some Scene.sock
  /\ sends_cooperate Scene_exceptional.env
  /\ write_to_socket Scene_exceptional.env 1 Scene.message Scene.opened Scene.quiet
     = Ret tt Scene_exceptional.after Scene_exceptional.world
  /\ write_loop Scene_exceptional.env 1 Scene.message 0 Scene.opened Scene.quiet
     = Ret 0 Scene_exceptional.after Scene_exceptional.world
  /\ 0 <> length Scene.message
  /\ _exceptions Scene_exceptional.after <> _exceptions Scene.opened
  /\ wire Scene_exceptional.world <> wire Scene.quiet ++ Scene.message.
Proof.
  repeat split; try done.
  intros t. cbn. lia.
Qed.

(** C1, amended.  Let the socket exist, let no readiness wait report an
    exceptional condition, and let every send attempt either take at least
    one byte or raise a transient condition ([socket.timeout], or a
    [socket.error] whose first argument is [EWOULDBLOCK] or [EAGAIN]).  If
    [write_to_socket] returns, its cursor stands at [len(frame_data)], the
    whole payload has gone onto the wire, and [self] is as before, so the
    sink has no new entry; and each time a send raises, the loop goes round
    again with the cursor where it was. *)
Theorem write_to_socket_sends_everything
    (env : Env) (fuel : nat) (frame_data : bytes) (io io' : IO) (w w' : World) :
  is_Some (socket io) ->
  never_exceptional env ->
  sends_cooperate env ->
  write_to_socket env fuel frame_data io w = Ret tt io' w' ->
  write_loop env fuel frame_data 0 io w = Ret (length frame_data) io' w'
  /\ wire w' = wire w ++ frame_data
  /\ io' = io
  /\ _exceptions io' = _exceptions io
  /\ forall total sock p wlist w0 w1 e,
       socket io = Some sock -> poller io = Some p ->
       ready_to_write env p io w0 = Ret wlist io w1 -> truthy wlist = true ->
       send_result env (clock w1) = SendRaises e ->
       write_body env frame_data total io w0
       = Ret (Next total) io (log (EvSend sock (drop total frame_data)) w1).
Proof.
  intros Hsock Hx Hs Hrun.
  apply write_to_socket_loop in Hrun as [n Hrun].
  destruct (write_loop_sends_all env Hx Hs _ _ _ _ _ _ _ _ Hsock Hrun)
    as (-> & -> & Hwire); [lia|].
  repeat split; try done.
  intros total sock p wlist w0 w1 e Hso Hp Hready Hw Hsend.
  eapply write_body_retries; try done.
  specialize (Hs (clock w1)).
  destruct (send_result env (clock w1)); [discriminate|].
  injection Hsend; intros; subst; done.
Qed.

Module Scene_would_block.

(** The socket of [test_io_simple_send_with_recoverable_error]: the first
    send raises [EWOULDBLOCK], every later one takes one byte. *)
Definition env : Env :=
  Scene.with_io (fun _ => (true, true, false))
                (fun t => if t <? 2 then SendRaises (Exc socket_error [VInt 11])
                          else Accept 1)
                (fun _ => Recv []).

Definition world : World :=
  {| trace :=
       [EvSelect (write (Poller_init Scene.sock));
        EvSend Scene.sock Scene.message;
        EvSelect (write (Poller_init Scene.sock));
        EvSend Scene.sock Scene.message;
        EvSelect (write (Poller_init Scene.sock));
        EvSend Scene.sock (drop 1 Scene.message);
        EvSelect (write (Poller_init Scene.sock));
        EvSend Scene.sock (drop 2 Scene.message)];
     wire := Scene.message |}.

End Scene_would_block.

Lemma write_to_socket_sends_everything_witness :
  write_loop Scene_would_block.env 4 Scene.message 0 Scene.opened Scene.quiet
  = Ret 3 Scene.opened Scene_would_block.world
  /\ wire Scene_would_block.world = Scene.message
  /\ _exceptions Scene.opened = Some [].
Proof.
  destruct (write_to_socket_sends_everything Scene_would_block.env 4
              Scene.message Scene.opened Scene.opened Scene.quiet
              Scene_would_block.world)
    as (Hloop & Hwire & _ & Hsink & _).
  - by eexists.
  - intros t. reflexivity.
  - intros t. cbn. destruct (t <=? 1); cbn; [reflexivity|lia].
  - reflexivity.
  - exact (conj Hloop (conj Hwire Hsink)).
Defined.


Lemma transmit_nil w : transmit [] w = w.
Proof. destruct w. unfold transmit. cbn. by rewrite app_nil_r. Qed.


(** What the loop body does when there is no socket, and when a send
    attempt is fatal, in terms of the append to the sink. *)
Lemma write_body_no_socket env frame_data total io w :
  socket io = None ->
  write_body env frame_data total io w
  = (exceptions_append
       (Exc AMQPConnectionError
          [VExc (Exc socket_error [VStr "connection/socket error"])]) ;;;
     ret Return) io w.
Proof.
  intros Hsock. unfold write_body, write_attempt. run. rewrite Hsock.
  reflexivity.
Qed.


Module Scene_argless.

(** A socket whose [send] raises [socket.error()] and whose [recv] raises
    [OSError()], errors without any argument, as the mocks of
    [test_io_close_with_io_error] and [test_io_shutdown_with_io_error]
    raise them. *)
Definition send_why : pyexc := Exc socket_error [].
Definition recv_why : pyexc := Exc OSError [].

Definition env : Env :=
  Scene.with_io (fun _ => (true, true, false)) (fun _ => SendRaises send_why)
                (fun _ => RecvRaises recv_why).


End Scene_argless.



Module Scene_fatal.

(** The socket of [test_io_simple_send_with_error] and of
    [test_io_receive_raises_socket_error]: [send] and [recv] raise a
    [socket.error] that carries only a message. *)
Definition send_why : pyexc := Exc socket_error [VStr "error"].
Definition recv_why : pyexc := Exc socket_error [VStr "travis-ci"].

Definition env : Env :=
  Scene.with_io (fun _ => (true, true, false)) (fun _ => SendRaises send_why)
                (fun _ => RecvRaises recv_why).

Definition no_socket_why : pyexc :=
  Exc socket_error [VStr "connection/socket error"].

End Scene_fatal.






(** ** Reading *)

(** Whenever [_receive] returns, either [self] is as it was, or the fatal
    path ran: one [AMQPConnectionError] appended, the Running Flag cleared,
    no bytes produced. *)
Lemma receive_returns env io w data io' w' :
  _receive env io w = Ret data io' w' ->
  io' = io
  \/ exists l why,
       _exceptions io = Some l /\ data = EMPTY_BUFFER
       /\ io' = set_running false
                  (set_exceptions
                     (Some (l ++ [Exc AMQPConnectionError [VExc why]])) io).
Proof.
  unfold _receive, socket_recv. run.
  destruct (socket io) as [sock|].
  - destruct (recv_result env (clock w)) as [d|e]; cbn.
    + intros [= <- <- <-]. by left.
    + unfold receive_handler. run.
      destruct (catches [socket_timeout] e); [intros [= <- <- <-]; by left|].
      destruct (catches [IOError; OSError] e); [|done].
      destruct (exc_args e !! 0) as [a|]; [|done].
      destruct (negb (py_in a [EWOULDBLOCK env; EAGAIN env]));
        [|intros [= <- <- <-]; by left].
      destruct (_exceptions io) as [l|]; [|done].
      intros [= <- <- <-]. right. by eexists _, _.
  - cbn. run. destruct (_exceptions io) as [l|]; [|done].
    intros [= <- <- <-]. right. by eexists _, _.
Qed.




Module Scene_blocked.

(** The socket of [test_io_receive_does_not_raise_on_block]: [recv] raises
    [socket.error(EWOULDBLOCK)]. *)
Definition why : pyexc := Exc socket_error [VInt 11].

Definition env : Env :=
  Scene.with_io (fun _ => (true, true, false)) (fun _ => Accept 4096)
                (fun _ => RecvRaises why).

End Scene_blocked.


Lemma receive_keeps_buffer env io w data io' w' :
  _receive env io w = Ret data io' w' ->
  data_in io' = data_in io /\ _on_read_impl io' = _on_read_impl io.
Proof.
  intros Hrun.
  apply receive_returns in Hrun as [->|(l & why & _ & _ & ->)]; done.
Qed.

(** What an iteration that returns leaves in the buffer: the old content
    when the poller was not ready, else the consumer's answer. *)
Lemma process_iteration_returns env io w io' w' :
  process_iteration env io w = Ret tt io' w' ->
  _on_read_impl io' = _on_read_impl io
  /\ (data_in io' = data_in io
      \/ exists on_read received,
           _on_read_impl io = Some on_read
           /\ data_in io' = on_read (data_in io ++ received)).
Proof.
  unfold process_iteration, ready_to_read, select_select. run.
  destruct (poller io) as [p|]; [|done].
  destruct (read p) as [[[rl wl] xl] tmo].
  destruct (select_result env (clock w)) as [[r wr] x].
  destruct (truthy (if r then rl else [])); [|intros [= <- <-]; by split; [|left]].
  destruct (_receive env io _) as [data io1 w1| |] eqn:Hrecv; [|done..].
  apply receive_keeps_buffer in Hrecv as [Hdata Himpl].
  cbn. destruct (_on_read_impl io1) as [f|] eqn:Hf; [|done].
  intros [= <- <-]. cbn. split; [congruence|].
  right. exists f, data. split; congruence.
Qed.

(** With a consumer that always answers the empty byte string, a reader
    loop that starts on an empty buffer ends on an empty buffer. *)
Lemma reader_loop_buffer_stays_empty env on_read :
  (forall b, on_read b = EMPTY_BUFFER) ->
  forall fuel io w io' w',
    _on_read_impl io = Some on_read -> data_in io = EMPTY_BUFFER ->
    _process_incoming_data env fuel io w = Ret tt io' w' ->
    data_in io' = EMPTY_BUFFER.
Proof.
  intros Hempty fuel.
  induction fuel as [|fuel IH]; intros io w io' w' Himpl Hdata;
    cbn [_process_incoming_data]; unfold bind at 1, get_self;
    destruct (_running io); try done; try (by intros [= <- <-]).
  unfold bind at 1.
  destruct (process_iteration env io w) as [[] io1 w1| |] eqn:Hiter; [|done..].
  apply process_iteration_returns in Hiter as [Himpl1 Hbuf].
  apply IH; [congruence|].
  destruct Hbuf as [->|(f & received & Hf & ->)]; [done|].
  rewrite Himpl in Hf. injection Hf as <-. apply Hempty.
Qed.

(** C4.  An iteration of the reader loop in which the poller reports the
    descriptor readable and the receive step produces [received] leaves
    [on_read (data_in ++ received)] in the inbound buffer.  The next such
    iteration hands the consumer exactly that remainder followed by what it
    receives.  With a consumer that always answers the empty byte string the
    buffer is empty after the iteration, and stays empty however long the
    loop runs. *)
Theorem process_iteration_buffer
    (env : Env) (io : IO) (w : World) (p : Poller) (rlist : list Socket)
    (w1 : World) (received : bytes) (io2 : IO) (w2 : World)
    (on_read : bytes -> bytes) :
  poller io = Some p ->
  ready_to_read env p io w = Ret rlist io w1 ->
  truthy rlist = true ->
  _receive env io w1 = Ret received io2 w2 ->
  _on_read_impl io = Some on_read ->
  let io3 := set_data_in (on_read (data_in io ++ received)) io2 in
  process_iteration env io w = Ret tt io3 w2
  /\ data_in io3 = on_read (data_in io ++ received)
  /\ (forall p' rlist' w3 received' io4 w4,
        poller io3 = Some p' ->
        ready_to_read env p' io3 w2 = Ret rlist' io3 w3 ->
        truthy rlist' = true ->
        _receive env io3 w3 = Ret received' io4 w4 ->
        process_iteration env io3 w2
        = Ret tt (set_data_in
                    (on_read (on_read (data_in io ++ received) ++ received')) io4)
            w4)
  /\ ((forall b, on_read b = EMPTY_BUFFER) ->
      data_in io3 = EMPTY_BUFFER
      /\ forall fuel io' w',
           _process_incoming_data env fuel io3 w2 = Ret tt io' w' ->
           data_in io' = EMPTY_BUFFER).
Proof.
  assert (Hstep : forall io0 w0 p0 rlist0 w10 received0 io20 w20,
            poller io0 = Some p0 ->
            ready_to_read env p0 io0 w0 = Ret rlist0 io0 w10 ->
            truthy rlist0 = true ->
            _receive env io0 w10 = Ret received0 io20 w20 ->
            _on_read_impl io0 = Some on_read ->
            process_iteration env io0 w0
            = Ret tt (set_data_in (on_read (data_in io0 ++ received0)) io20) w20).
  { intros io0 w0 p0 rlist0 w10 received0 io20 w20 Hp Hready Hr Hrecv Himpl.
    apply receive_keeps_buffer in Hrecv as Hkeep. destruct Hkeep as [_ Hkeep].
    unfold process_iteration. run.
    rewrite Hp, Hready, Hr, Hrecv. cbn. rewrite Hkeep, Himpl. reflexivity. }
  intros Hp Hready Hr Hrecv Himpl io3.
  apply receive_keeps_buffer in Hrecv as Hkeep. destruct Hkeep as [_ Hkeep].
  assert (Himpl3 : _on_read_impl io3 = Some on_read) by (cbn; congruence).
  split; [by eapply Hstep|]. split; [done|]. split.
  - intros p' rlist' w3 received' io4 w4 Hp' Hready' Hr' Hrecv'.
    by rewrite (Hstep _ _ _ _ _ _ _ _ Hp' Hready' Hr' Hrecv' Himpl3).
  - intros Hempty. split; [apply Hempty|].
    intros fuel io' w'. eapply reader_loop_buffer_stays_empty; try done.
    apply Hempty.
Qed.

Module Scene_reader.

(** A fake socket that delivers the same three bytes on every read, a
    consumer stub that takes a two-byte frame off the front and returns the
    rest, and one that consumes everything. *)
Definition env : Env :=
  Scene.with_io (fun _ => (true, true, false)) (fun _ => Accept 4096)
                (fun _ => Recv Scene.message).

Definition transport (on_read : bytes -> bytes) : IO :=
  set_inbound_thread (Some {| thread_name := "amqpstorm.io"; daemon := true |})
    (set_poller (Some (Poller_init Scene.sock))
       (set_socket (Some Scene.sock)
          (set_running true (IO_init Scene.parameters (Some []) (Some on_read))))).

Definition two_byte_frames : bytes -> bytes := drop 2.
Definition consume_all : bytes -> bytes := fun _ => EMPTY_BUFFER.

Definition after_one_read : World :=
  {| trace := [EvSelect (read (Poller_init Scene.sock)); EvRecv Scene.sock 131072];
     wire := [] |}.

Definition after_two_reads : World :=
  {| trace := [EvSelect (read (Poller_init Scene.sock)); EvRecv Scene.sock 131072;
               EvSelect (read (Poller_init Scene.sock)); EvRecv Scene.sock 131072];
     wire := [] |}.

End Scene_reader.

Lemma process_iteration_buffer_witness :
  process_iteration Scene_reader.env
    (Scene_reader.transport Scene_reader.two_byte_frames) Scene.quiet
  = Ret tt (set_data_in [Byte.x21]
              (Scene_reader.transport Scene_reader.two_byte_frames))
      Scene_reader.after_one_read
  /\ process_iteration Scene_reader.env
       (set_data_in [Byte.x21]
          (Scene_reader.transport Scene_reader.two_byte_frames))
       Scene_reader.after_one_read
     = Ret tt (set_data_in [Byte.x69; Byte.x21]
                 (Scene_reader.transport Scene_reader.two_byte_frames))
         Scene_reader.after_two_reads
  /\ data_in (set_data_in (Scene_reader.consume_all Scene.message)
                (Scene_reader.transport Scene_reader.consume_all))
     = EMPTY_BUFFER.
Proof.
  destruct (process_iteration_buffer Scene_reader.env
              (Scene_reader.transport Scene_reader.two_byte_frames) Scene.quiet
              (Poller_init Scene.sock) [Scene.sock]
              (log (EvSelect (read (Poller_init Scene.sock))) Scene.quiet)
              Scene.message
              (Scene_reader.transport Scene_reader.two_byte_frames)
              Scene_reader.after_one_read Scene_reader.two_byte_frames
              eq_refl eq_refl eq_refl eq_refl eq_refl)
    as (Hfirst & _ & Hnext & _).
  destruct (process_iteration_buffer Scene_reader.env
              (Scene_reader.transport Scene_reader.consume_all) Scene.quiet
              (Poller_init Scene.sock) [Scene.sock]
              (log (EvSelect (read (Poller_init Scene.sock))) Scene.quiet)
              Scene.message
              (Scene_reader.transport Scene_reader.consume_all)
              Scene_reader.after_one_read Scene_reader.consume_all
              eq_refl eq_refl eq_refl eq_refl eq_refl)
    as (_ & _ & _ & Hempty).
  split; [exact Hfirst|]. split.
  - exact (Hnext (Poller_init Scene.sock) [Scene.sock]
             {| trace := [EvSelect (read (Poller_init Scene.sock));
                          EvRecv Scene.sock 131072;
                          EvSelect (read (Poller_init Scene.sock))];
                wire := [] |}
             Scene.message
             (set_data_in [Byte.x21]
                (Scene_reader.transport Scene_reader.two_byte_frames))
             Scene_reader.after_two_reads
             eq_refl eq_refl eq_refl eq_refl).
  - apply Hempty. reflexivity.
Defined.

(** ** Opening *)

(** The TLS options as [_ssl_wrap_socket] leaves them. *)
Definition defaulted (env : Env) (options : gmap string pyval) : gmap string pyval :=
  match options !! "ssl_version" with
  | None => <["ssl_version" := DEFAULT_SSL_VERSION env]> options
  | Some _ => options
  end.

(** [self] after a socket has been created: with TLS, the options carry a
    protocol version. *)
Definition settled (env : Env) (io : IO) : IO :=
  if use_ssl io then
    match ssl_options (_parameters io) !! "ssl_version" with
    | None =>
        set_parameters
          {| hostname := hostname (_parameters io); port := port (_parameters io);
             timeout := timeout (_parameters io); ssl := ssl (_parameters io);
             ssl_options := defaulted env (ssl_options (_parameters io)) |} io
    | Some _ => io
    end
  else io.

(** The socket that [_create_socket] builds for a family. *)
Definition socket_for (env : Env) (io : IO) (family : Z) : Socket :=
  {| sock_family := family; sock_type := SOCK_STREAM; sock_proto := 0;
     sock_timeout := or_None (timeout (_parameters io));
     sock_ssl := if use_ssl io
                 then Some (defaulted env (ssl_options (_parameters io)))
                 else None;
     sock_peer := None |}.

Definition connected (sock : Socket) (addr : sockaddr) : Socket :=
  {| sock_family := sock_family sock; sock_type := sock_type sock;
     sock_proto := sock_proto sock; sock_timeout := sock_timeout sock;
     sock_ssl := sock_ssl sock; sock_peer := Some addr |}.

(** The connect attempt on a candidate, and its two outcomes of interest:
    success, and an [IOError]/[OSError]. *)
Definition attempt (env : Env) (io : IO) (address : addrinfo) : event :=
  EvConnect (socket_for env io (ai_family address)) (ai_sockaddr address).

Definition connects (env : Env) (io : IO) (address : addrinfo) : bool :=
  match connect_result env (socket_for env io (ai_family address))
                       (ai_sockaddr address) with
  | None => true
  | Some _ => false
  end.

Definition fails_to_connect (env : Env) (io : IO) (address : addrinfo) : bool :=
  match connect_result env (socket_for env io (ai_family address))
                       (ai_sockaddr address) with
  | None => false
  | Some e => catches [IOError; OSError] e
  end.

Definition after_attempts (env : Env) (io : IO) (addresses : list addrinfo)
    (w : World) : World :=
  {| trace := trace w ++ map (attempt env io) addresses; wire := wire w |}.

Lemma defaulted_idemp env options :
  defaulted env (defaulted env options) = defaulted env options.
Proof.
  unfold defaulted at 2 3.
  destruct (options !! "ssl_version") as [v|] eqn:Hv.
  - unfold defaulted. by rewrite Hv.
  - unfold defaulted. by rewrite lookup_insert_eq.
Qed.

Lemma settled_idemp env io : settled env (settled env io) = settled env io.
Proof.
  unfold settled. destruct (use_ssl io) eqn:Hssl.
  - destruct (ssl_options (_parameters io) !! "ssl_version") as [v|] eqn:Hv.
    + by rewrite Hssl, Hv.
    + cbn. rewrite Hssl. unfold defaulted. rewrite Hv, lookup_insert_eq. done.
  - by rewrite Hssl.
Qed.

Lemma socket_for_settled env io family :
  socket_for env (settled env io) family = socket_for env io family.
Proof.
  unfold settled, socket_for. destruct (use_ssl io) eqn:Hssl; [|by rewrite Hssl].
  destruct (ssl_options (_parameters io) !! "ssl_version") as [v|] eqn:Hv.
  - by rewrite Hssl.
  - cbn. rewrite Hssl. by rewrite defaulted_idemp.
Qed.

Lemma settled_target env io :
  hostname (_parameters (settled env io)) = hostname (_parameters io)
  /\ port (_parameters (settled env io)) = port (_parameters io).
Proof.
  unfold settled. destruct (use_ssl io); [|done].
  by destruct (ssl_options (_parameters io) !! "ssl_version").
Qed.

(** The socket as [socket.socket] and [settimeout] leave it. *)
Definition plain_socket (io : IO) (family : Z) : Socket :=
  {| sock_family := family; sock_type := SOCK_STREAM; sock_proto := 0;
     sock_timeout := or_None (timeout (_parameters io));
     sock_ssl := None; sock_peer := None |}.

Definition no_error (o : option pyexc) : bool :=
  match o with
  | None => true
  | Some _ => false
  end.

Definition timeout_accepted (value : option Z) : bool :=
  match value with
  | Some t => negb (t <? 0)%Z
  | None => true
  end.

(** A socket can be created for a family: [socket.socket] does not raise,
    [settimeout] accepts the configured timeout and, when TLS is on, the
    runtime supports it and [ssl.wrap_socket] accepts the options. *)
Definition creatable (env : Env) (io : IO) (family : Z) : bool :=
  no_error (socket_result env family SOCK_STREAM 0)
  && timeout_accepted (or_None (timeout (_parameters io)))
  && (if use_ssl io
      then SSL_SUPPORTED env
           && no_error (wrap_socket_result env (plain_socket io family)
                          (defaulted env (ssl_options (_parameters io))))
      else true).

Lemma settled_params env io :
  timeout (_parameters (settled env io)) = timeout (_parameters io)
  /\ use_ssl (settled env io) = use_ssl io
  /\ defaulted env (ssl_options (_parameters (settled env io)))
     = defaulted env (ssl_options (_parameters io)).
Proof.
  unfold settled. destruct (use_ssl io) eqn:Hssl; [|done].
  destruct (ssl_options (_parameters io) !! "ssl_version") as [v|] eqn:Hv;
    [done|].
  cbn. split; [done|]. split; [done|]. apply defaulted_idemp.
Qed.

Lemma creatable_settled env io family :
  creatable env (settled env io) family = creatable env io family.
Proof.
  unfold creatable, plain_socket.
  destruct (settled_params env io) as (-> & -> & ->). done.
Qed.

Lemma create_socket_settles env io w family :
  creatable env io family = true ->
  _create_socket env family io w
  = Ret (socket_for env io family) (settled env io) w.
Proof.
  unfold creatable, plain_socket, _create_socket, socket_socket,
    socket_settimeout, _ssl_wrap_socket, ssl_wrap_socket, socket_for, settled.
  run. intros Hok.
  apply andb_true_iff in Hok as [Hok Htls].
  apply andb_true_iff in Hok as [Hsock Htime].
  destruct (socket_result env family SOCK_STREAM 0); [done|]. cbn -[lookup insert].
  destruct (or_None (timeout (_parameters io))) as [t|]; cbn -[lookup insert] in *.
  - destruct (t <? 0)%Z; [done|]. cbn -[lookup insert].
    destruct (use_ssl io); [|done].
    apply andb_true_iff in Htls as [-> Hwrap]. cbn -[lookup insert].
    unfold defaulted in *.
    destruct (ssl_options (_parameters io) !! "ssl_version");
      cbn -[lookup insert];
      by destruct (wrap_socket_result env _ _).
  - destruct (use_ssl io); [|done].
    apply andb_true_iff in Htls as [-> Hwrap]. cbn -[lookup insert].
    unfold defaulted in *.
    destruct (ssl_options (_parameters io) !! "ssl_version");
      cbn -[lookup insert];
      by destruct (wrap_socket_result env _ _).
Qed.

(** [_create_socket] returns only when the socket can be created. *)
Lemma create_socket_returns env io w family sock io' w' :
  _create_socket env family io w = Ret sock io' w' ->
  creatable env io family = true.
Proof.
  unfold creatable, plain_socket, _create_socket, socket_socket,
    socket_settimeout, _ssl_wrap_socket, ssl_wrap_socket. run.
  destruct (socket_result env family SOCK_STREAM 0); [done|]. cbn -[lookup insert].
  destruct (or_None (timeout (_parameters io))) as [t|]; cbn -[lookup insert].
  - destruct (t <? 0)%Z; [done|]. cbn -[lookup insert].
    destruct (use_ssl io); [|done].
    destruct (SSL_SUPPORTED env); [|done]. cbn -[lookup insert].
    unfold defaulted.
    destruct (ssl_options (_parameters io) !! "ssl_version");
      cbn -[lookup insert];
      by destruct (wrap_socket_result env _ _).
  - destruct (use_ssl io); [|done].
    destruct (SSL_SUPPORTED env); [|done]. cbn -[lookup insert].
    unfold defaulted.
    destruct (ssl_options (_parameters io) !! "ssl_version");
      cbn -[lookup insert];
      by destruct (wrap_socket_result env _ _).
Qed.

Lemma after_attempts_cons env io address rest w :
  after_attempts env io rest (log (attempt env io address) w)
  = after_attempts env io (address :: rest) w.
Proof. unfold after_attempts, log. cbn. by rewrite <- app_assoc. Qed.

Lemma after_attempts_nil env io w : after_attempts env io [] w = w.
Proof. destruct w. unfold after_attempts. cbn. by rewrite app_nil_r. Qed.

(** One candidate tried on a [self] that is [io] or [settled env io]. *)
Lemma find_address_step env io address rest io0 w :
  creatable env io (ai_family address) = true ->
  io0 = io \/ io0 = settled env io ->
  _find_address_and_connect env (address :: rest) io0 w
  = match connect_result env (socket_for env io (ai_family address))
                         (ai_sockaddr address) with
    | None =>
        Ret (connected (socket_for env io (ai_family address)) (ai_sockaddr address))
          (settled env io) (log (attempt env io address) w)
    | Some e =>
        if catches [IOError; OSError] e
        then _find_address_and_connect env rest (settled env io)
               (log (attempt env io address) w)
        else Raise e (settled env io) (log (attempt env io address) w)
    end.
Proof.
  intros Hcreate Hio0.
  assert (Hs : socket_for env io0 (ai_family address)
               = socket_for env io (ai_family address)
               /\ settled env io0 = settled env io
               /\ creatable env io0 (ai_family address) = true).
  { destruct Hio0 as [->| ->]; [done|].
    by rewrite socket_for_settled, settled_idemp, creatable_settled. }
  destruct Hs as (Hsock & Hset & Hcreate0).
  cbn [_find_address_and_connect]. unfold bind at 1.
  rewrite (create_socket_settles env io0 w _ Hcreate0), Hsock, Hset.
  unfold socket_connect, attempt. run.
  destruct (connect_result env _ _) as [e|]; [|reflexivity].
  destruct (catches [IOError; OSError] e); reflexivity.
Qed.

Definition could_not_connect (io : IO) : pyexc :=
  Exc AMQPConnectionError
    [VStr ("Could not connect to " +:+ hostname (_parameters io)
           +:+ ":" +:+ pretty (port (_parameters io)))].

Lemma find_address_first env io pre address post :
  forallb (fun b => creatable env io (ai_family b)) (pre ++ [address]) = true ->
  forallb (fails_to_connect env io) pre = true ->
  connects env io address = true ->
  forall io0 w,
    io0 = io \/ io0 = settled env io ->
    _find_address_and_connect env (pre ++ address :: post) io0 w
    = Ret (connected (socket_for env io (ai_family address)) (ai_sockaddr address))
        (settled env io) (after_attempts env io (pre ++ [address]) w).
Proof.
  intros Hcreate Hpre Hok.
  induction pre as [|b pre IH]; intros io0 w Hio0; cbn [app] in *;
    cbn [forallb] in Hcreate; apply andb_true_iff in Hcreate as [Hb0 Hcreate];
    rewrite (find_address_step env io _ _ io0 w Hb0 Hio0).
  - unfold connects in Hok.
    destruct (connect_result env _ _); [done|].
    by rewrite <- after_attempts_cons, after_attempts_nil.
  - cbn in Hpre. apply andb_true_iff in Hpre as [Hb Hpre].
    unfold fails_to_connect in Hb.
    destruct (connect_result env _ _) as [e|]; [|done]. rewrite Hb.
    rewrite (IH Hcreate Hpre) by (by right). by rewrite after_attempts_cons.
Qed.

Lemma find_address_none env io addresses :
  forallb (fun b => creatable env io (ai_family b)) addresses = true ->
  forallb (fails_to_connect env io) addresses = true ->
  forall io0 w,
    io0 = io \/ io0 = settled env io ->
    _find_address_and_connect env addresses io0 w
    = Raise (could_not_connect io)
        (match addresses with [] => io0 | _ :: _ => settled env io end)
        (after_attempts env io addresses w).
Proof.
  intros Hcreate Hall.
  induction addresses as [|b rest IH]; intros io0 w Hio0.
  - cbn. run. rewrite after_attempts_nil. unfold could_not_connect.
    destruct Hio0 as [->| ->]; [done|].
    by destruct (settled_target env io) as [-> ->].
  - cbn [forallb] in Hcreate. apply andb_true_iff in Hcreate as [Hb0 Hcreate].
    rewrite (find_address_step env io _ _ io0 w Hb0 Hio0).
    cbn in Hall. apply andb_true_iff in Hall as [Hb Hall].
    unfold fails_to_connect in Hb.
    destruct (connect_result env _ _) as [e|]; [|done]. rewrite Hb.
    rewrite (IH Hcreate Hall) by (by right). rewrite after_attempts_cons.
    by destruct rest.
Qed.

Module Scene_no_tls.

(** TLS asked for on a runtime without it, as in
    [test_io_ssl_connection_without_ssl_library]; every connect would
    succeed. *)
Definition env : Env :=
  {| EWOULDBLOCK := 11; EAGAIN := 11; MAX_FRAME_SIZE := 131072;
     has_ipv6 := true; SSL_SUPPORTED := false; DEFAULT_SSL_VERSION := VInt 3;
     getaddrinfo_result := fun _ _ _ _ => inr [Scene.candidate];
     connect_result := fun _ _ => None;
     socket_result := fun _ _ _ => None;
     wrap_socket_result := fun _ _ => None;
     select_result := fun _ => (true, true, false);
     send_result := fun _ => Accept 4096;
     recv_result := fun _ => Recv [];
     shutdown_result := fun _ => None;
     close_result := fun _ => None |}.

Definition parameters : Parameters :=
  {| hostname := "localhost"; port := 5672; timeout := Some 30%Z;
     ssl := true; ssl_options := ∅ |}.

Definition transport : IO := IO_init parameters (Some []) (Some (fun b => b)).

End Scene_no_tls.

Module Scene_two_candidates.

(** The resolver's answer for a dual-stack host: the IPv6 address refuses
    connections, the IPv4 one accepts. *)
Definition broker6 : sockaddr := {| sa_host := "::1"; sa_port := 5672 |}.

Definition candidate6 : addrinfo :=
  {| ai_family := 10; ai_socktype := SOCK_STREAM; ai_proto := 6;
     ai_canonname := ""; ai_sockaddr := broker6 |}.

Definition refused : pyexc := Exc socket_error [VInt 111; VStr "Connection refused"].

Definition env : Env :=
  {| EWOULDBLOCK := 11; EAGAIN := 11; MAX_FRAME_SIZE := 131072;
     has_ipv6 := true; SSL_SUPPORTED := true; DEFAULT_SSL_VERSION := VInt 3;
     getaddrinfo_result := fun _ _ _ _ => inr [candidate6; Scene.candidate];
     connect_result := fun s _ => if (sock_family s =? 10)%Z then Some refused else None;
     socket_result := fun _ _ _ => None;
     wrap_socket_result := fun _ _ => None;
     select_result := fun _ => (true, true, false);
     send_result := fun _ => Accept 4096;
     recv_result := fun _ => Recv [];
     shutdown_result := fun _ => None;
     close_result := fun _ => None |}.

End Scene_two_candidates.

Module Scene_no_ipv6.

(** A host whose kernel has IPv6 switched off while the resolver still
    returns an IPv6 address first: [socket.socket(AF_INET6, ...)] raises
    "Address family not supported by protocol"; the IPv4 broker accepts
    connections. *)
Definition unsupported : pyexc :=
  Exc socket_error [VInt 97; VStr "Address family not supported by protocol"].

Definition env : Env :=
  {| EWOULDBLOCK := 11; EAGAIN := 11; MAX_FRAME_SIZE := 131072;
     has_ipv6 := true; SSL_SUPPORTED := true; DEFAULT_SSL_VERSION := VInt 3;
     getaddrinfo_result :=
       fun _ _ _ _ => inr [Scene_two_candidates.candidate6; Scene.candidate];
     connect_result := fun _ _ => None;
     socket_result := fun family _ _ =>
                        if (family =? 10)%Z then Some unsupported else None;
     wrap_socket_result := fun _ _ => None;
     select_result := fun _ => (true, true, false);
     send_result := fun _ => Accept 4096;
     recv_result := fun _ => Recv [];
     shutdown_result := fun _ => None;
     close_result := fun _ => None |}.

End Scene_no_ipv6.

(** C5, as stated, fails, reading "a candidate's connect succeeds" as "the
    connect to that candidate would succeed".  The socket for a candidate is
    created outside the [try], before its connect.  Here the second
    candidate's socket can be created and its connect succeeds, but no
    socket can be created for the first: the connect phase returns no
    socket, attempts no connect, and raises the creation error instead of
    an [AMQPConnectionError].  The same happens when TLS is asked for on a
    runtime without it. *)
Lemma find_address_uncreatable_counterexample :
  creatable Scene_no_ipv6.env Scene.fresh (ai_family Scene.candidate) = true
  /\ connects Scene_no_ipv6.env Scene.fresh Scene.candidate = true
  /\ _find_address_and_connect Scene_no_ipv6.env
       [Scene_two_candidates.candidate6; Scene.candidate] Scene.fresh Scene.quiet
     = Raise Scene_no_ipv6.unsupported Scene.fresh Scene.quiet
  /\ (forall sock io' w',
        _find_address_and_connect Scene_no_ipv6.env
          [Scene_two_candidates.candidate6; Scene.candidate] Scene.fresh
          Scene.quiet
        <> Ret sock io' w')
  /\ connects Scene_no_tls.env Scene_no_tls.transport Scene.candidate = true
  /\ _find_address_and_connect Scene_no_tls.env [Scene.candidate]
       Scene_no_tls.transport Scene.quiet
     = Raise (Exc AMQPConnectionError
                [VStr "Python not compiled with support for TLSv1 or higher"])
         Scene_no_tls.transport Scene.quiet.
Proof. repeat split; done. Qed.

(** C5, amended.  Read "a candidate's connect succeeds (fails)" as: the
    connect on the socket created for it succeeds (raises an
    [IOError]/[OSError]).  For every candidate list: if the candidates
    before [address] all fail to connect, [address] connects, and a socket
    can be created for each of them up to [address] ([socket.socket] and
    [settimeout] do not raise and, with TLS on, the runtime supports TLS and
    [ssl.wrap_socket] accepts the options), the connect phase returns the
    socket built for [address] and connected to it, having attempted exactly
    these candidates in list order; if every candidate fails and a socket
    can be created for each, having attempted them all in order it raises
    an [AMQPConnectionError] whose message is "Could not connect to"
    followed by the configured hostname and port. *)
Theorem find_address_and_connect_first
    (env : Env) (io : IO) (w : World) (addresses : list addrinfo) :
  (forall pre address post,
     addresses = pre ++ address :: post ->
     forallb (fun b => creatable env io (ai_family b)) (pre ++ [address]) = true ->
     forallb (fails_to_connect env io) pre = true ->
     connects env io address = true ->
     _find_address_and_connect env addresses io w
     = Ret (connected (socket_for env io (ai_family address)) (ai_sockaddr address))
         (settled env io) (after_attempts env io (pre ++ [address]) w)
     /\ _exceptions (settled env io) = _exceptions io)
  /\ (forallb (fun b => creatable env io (ai_family b)) addresses = true ->
      forallb (fails_to_connect env io) addresses = true ->
      _find_address_and_connect env addresses io w
      = Raise (Exc AMQPConnectionError
                 [VStr ("Could not connect to " +:+ hostname (_parameters io)
                        +:+ ":" +:+ pretty (port (_parameters io)))])
          (match addresses with [] => io | _ :: _ => settled env io end)
          (after_attempts env io addresses w)).
Proof.
  split.
  - intros pre address post -> Hcreate Hpre Hok. split.
    + by apply find_address_first; [..|left].
    + unfold settled. destruct (use_ssl io); [|done].
      by destruct (ssl_options (_parameters io) !! "ssl_version").
  - intros Hcreate Hall. by apply find_address_none; [..|left].
Qed.

Lemma find_address_and_connect_first_witness :
  _find_address_and_connect Scene_two_candidates.env
    [Scene_two_candidates.candidate6; Scene.candidate] Scene.fresh Scene.quiet
  = Ret Scene.sock Scene.fresh
      {| trace := [EvConnect (socket_for Scene_two_candidates.env Scene.fresh 10)
                             Scene_two_candidates.broker6;
                   EvConnect (socket_for Scene_two_candidates.env Scene.fresh AF_INET)
                             Scene.broker];
         wire := [] |}
  /\ _find_address_and_connect Scene_two_candidates.env
       [Scene_two_candidates.candidate6] Scene.fresh Scene.quiet
     = Raise (Exc AMQPConnectionError [VStr "Could not connect to localhost:5672"])
         Scene.fresh
         {| trace := [EvConnect (socket_for Scene_two_candidates.env Scene.fresh 10)
                                Scene_two_candidates.broker6];
            wire := [] |}.
Proof.
  split.
  - destruct (find_address_and_connect_first Scene_two_candidates.env Scene.fresh
                Scene.quiet [Scene_two_candidates.candidate6; Scene.candidate])
      as [Hfirst _].
    apply (Hfirst [Scene_two_candidates.candidate6] Scene.candidate []);
      reflexivity.
  - destruct (find_address_and_connect_first Scene_two_candidates.env Scene.fresh
                Scene.quiet [Scene_two_candidates.candidate6])
      as [_ Hnone].
    apply Hnone; reflexivity.
Defined.

(** The query [_get_socket_addresses] puts to the resolver. *)
Definition resolver_family (env : Env) : Z :=
  if has_ipv6 env then AF_UNSPEC else AF_INET.

Definition resolver_query (env : Env) (io : IO) : event :=
  EvGetaddrinfo (hostname (_parameters io)) (port (_parameters io))
                (resolver_family env) SOCK_STREAM.

(** C6, amended.  The resolver is asked about the configured host and port
    once, with family [AF_UNSPEC] when the platform has IPv6 and [AF_INET]
    otherwise.  Its answer is returned as it comes.  Whenever it fails with
    a [socket.gaierror], [_get_socket_addresses] and with it [open] raise an
    [AMQPConnectionError] that wraps that error, arguments and all; the
    resolver query is then the only system call, so no candidate is
    attempted and no socket is stored. *)
Theorem get_socket_addresses_resolution (env : Env) (io : IO) (w : World) :
  resolver_family env = (if has_ipv6 env then AF_UNSPEC else AF_INET)
  /\ (forall addresses,
        getaddrinfo_result env (hostname (_parameters io)) (port (_parameters io))
                           (resolver_family env) SOCK_STREAM = inr addresses ->
        _get_socket_addresses env io w
        = Ret addresses io (log (resolver_query env io) w))
  /\ (forall why,
        getaddrinfo_result env (hostname (_parameters io)) (port (_parameters io))
                           (resolver_family env) SOCK_STREAM = inl why ->
        catches [socket_gaierror] why = true ->
        let io' := set_running true (set_data_in EMPTY_BUFFER io) in
        _get_socket_addresses env io w
        = Raise (Exc AMQPConnectionError [VExc why]) io
            (log (resolver_query env io) w)
        /\ open env io w
           = Raise (Exc AMQPConnectionError [VExc why]) io'
               (log (resolver_query env io) w)
        /\ socket io' = socket io).
Proof.
  split; [done|]. unfold resolver_query, resolver_family. split.
  - intros addresses Hres.
    unfold _get_socket_addresses, socket_getaddrinfo. run.
    destruct (has_ipv6 env); cbn in *; rewrite Hres; reflexivity.
  - intros why Hres Hgai.
    assert (Hget : forall io0,
              _parameters io0 = _parameters io ->
              _get_socket_addresses env io0 w
              = Raise (Exc AMQPConnectionError [VExc why]) io0
                  (log (EvGetaddrinfo (hostname (_parameters io))
                          (port (_parameters io))
                          (if has_ipv6 env then AF_UNSPEC else AF_INET)
                          SOCK_STREAM) w)).
    { intros io0 Hparams.
      unfold _get_socket_addresses, socket_getaddrinfo. run. rewrite Hparams.
      destruct (has_ipv6 env); cbn in *; rewrite Hres, Hgai; reflexivity. }
    split; [by apply Hget|]. split; [|done].
    unfold open. run.
    by rewrite (Hget (set_running true (set_data_in EMPTY_BUFFER io))).
Qed.

Module Scene_unresolved.

(** The resolver of [test_io_raises_gaierror]. *)
Definition why : pyexc := Exc socket_gaierror [VStr "could not connect"].

Definition env : Env :=
  {| EWOULDBLOCK := 11; EAGAIN := 11; MAX_FRAME_SIZE := 131072;
     has_ipv6 := true; SSL_SUPPORTED := true; DEFAULT_SSL_VERSION := VInt 3;
     getaddrinfo_result := fun _ _ _ _ => inl why;
     connect_result := fun _ _ => None;
     socket_result := fun _ _ _ => None;
     wrap_socket_result := fun _ _ => None;
     select_result := fun _ => (true, true, false);
     send_result := fun _ => Accept 4096;
     recv_result := fun _ => Recv [];
     shutdown_result := fun _ => None;
     close_result := fun _ => None |}.

End Scene_unresolved.

Lemma get_socket_addresses_resolution_witness :
  _get_socket_addresses Scene.cooperative Scene.fresh Scene.quiet
  = Ret [Scene.candidate] Scene.fresh
      {| trace := [EvGetaddrinfo "localhost" 5672 AF_UNSPEC SOCK_STREAM];
         wire := [] |}
  /\ open Scene_unresolved.env Scene.fresh Scene.quiet
     = Raise (Exc AMQPConnectionError [VExc Scene_unresolved.why])
         (set_running true Scene.fresh)
         {| trace := [EvGetaddrinfo "localhost" 5672 AF_UNSPEC SOCK_STREAM];
            wire := [] |}.
Proof.
  destruct (get_socket_addresses_resolution Scene.cooperative Scene.fresh
              Scene.quiet) as (_ & Hanswer & _).
  destruct (get_socket_addresses_resolution Scene_unresolved.env Scene.fresh
              Scene.quiet) as (_ & _ & Hfailure).
  split.
  - apply (Hanswer [Scene.candidate]). reflexivity.
  - apply (Hfailure Scene_unresolved.why); reflexivity.
Defined.

Module Scene_resolver_down.

(** A resolver that fails with a plain [socket.error]. *)
Definition why : pyexc := Exc socket_error [VInt 101; VStr "Network is unreachable"].

Definition env : Env :=
  {| EWOULDBLOCK := 11; EAGAIN := 11; MAX_FRAME_SIZE := 131072;
     has_ipv6 := false; SSL_SUPPORTED := true; DEFAULT_SSL_VERSION := VInt 3;
     getaddrinfo_result := fun _ _ _ _ => inl why;
     connect_result := fun _ _ => None;
     socket_result := fun _ _ _ => None;
     wrap_socket_result := fun _ _ => None;
     select_result := fun _ => (true, true, false);
     send_result := fun _ => Accept 4096;
     recv_result := fun _ => Recv [];
     shutdown_result := fun _ => None;
     close_result := fun _ => None |}.

End Scene_resolver_down.

(** C6, as stated, fails: the resolver fails, with a [socket.error] that is
    no [socket.gaierror], and [open] fails with that error itself, not with
    an [AMQPConnectionError] carrying it. *)
Lemma get_socket_addresses_unwrapped_counterexample :
  getaddrinfo_result Scene_resolver_down.env "localhost" 5672 AF_INET SOCK_STREAM
  = inl Scene_resolver_down.why
  /\ exc_cls Scene_resolver_down.why <> AMQPConnectionError
  /\ _get_socket_addresses Scene_resolver_down.env Scene.fresh Scene.quiet
     = Raise Scene_resolver_down.why Scene.fresh
         {| trace := [EvGetaddrinfo "localhost" 5672 AF_INET SOCK_STREAM];
            wire := [] |}
  /\ open Scene_resolver_down.env Scene.fresh Scene.quiet
     = Raise Scene_resolver_down.why (set_running true Scene.fresh)
         {| trace := [EvGetaddrinfo "localhost" 5672 AF_INET SOCK_STREAM];
            wire := [] |}.
Proof. repeat split; done. Qed.

(** ** Closing *)

(** [self] once [close] is through with it. *)
Definition closed (io : IO) : IO :=
  set_socket None (set_poller None (set_inbound_thread None (set_running false io))).

(** The system calls [close] makes: the join, then the shutdown and, when
    the shutdown did not raise, the close. *)
Definition joins (io : IO) : list event :=
  match _inbound_thread io with
  | Some t => [EvJoin t]
  | None => []
  end.

Definition hangs_up (env : Env) (io : IO) (now : nat) : list event :=
  match socket io with
  | Some sock =>
      match shutdown_result env now with
      | None => [EvShutdown sock SHUT_RDWR; EvClose sock]
      | Some _ => [EvShutdown sock SHUT_RDWR]
      end
  | None => []
  end.

(** [shutdown] and [close] raise nothing but [OSError] or [socket.error]. *)
Definition hangup_errors_are_os_errors (env : Env) : Prop :=
  (forall t e, shutdown_result env t = Some e ->
               catches [OSError; socket_error] e = true)
  /\ (forall t e, close_result env t = Some e ->
                  catches [OSError; socket_error] e = true).

(** C8.  Provided [shutdown] and [close] raise nothing but [OSError] or
    [socket.error], [close] returns on every transport: the Running Flag is
    cleared, the inbound thread, if any, has been joined before the socket
    is touched, the socket, if any, has been shut down in both directions
    and closed unless the shutdown raised, and the three references are
    [None].  Closing again returns with [self] and the world unchanged, and
    closing a transport that was never opened changes nothing at all. *)
Theorem close_returns (env : Env) (io : IO) (w : World) :
  hangup_errors_are_os_errors env ->
  exists w',
    close env io w = Ret tt (closed io) w'
    /\ _running (closed io) = false
    /\ socket (closed io) = None
    /\ poller (closed io) = None
    /\ _inbound_thread (closed io) = None
    /\ trace w' = trace w ++ joins io
                  ++ hangs_up env io (length (trace w ++ joins io))
    /\ wire w' = wire w
    /\ close env (closed io) w' = Ret tt (closed io) w'
    /\ forall parameters exceptions on_read_impl,
         close env (IO_init parameters exceptions on_read_impl) w
         = Ret tt (IO_init parameters exceptions on_read_impl) w.
Proof.
  intros [Hshutdown Hclose].
  destruct io as [exs th onr rn params din pol sk tls], w as [tr wi].
  unfold close, _close_socket, socket_shutdown, socket_close, thread_join,
    joins, hangs_up, closed, clock, log. run.
  destruct th as [t|], sk as [sock|]; cbn -[catches]; rewrite ?app_nil_r;
    try (eexists; split; [reflexivity|]; cbn;
         rewrite ?app_nil_r, <- ?app_assoc; repeat split; done);
    (destruct (shutdown_result env _) as [e|] eqn:Hsh; cbn -[catches];
     [rewrite (Hshutdown _ _ Hsh)
     |destruct (close_result env _) as [e|] eqn:Hcl; cbn -[catches];
      [rewrite (Hclose _ _ Hcl)|]]);
    eexists; (split; [reflexivity|]); cbn;
    rewrite ?app_nil_r, <- ?app_assoc; repeat split; done.
Qed.

Module Scene_broken_pipe.

(** The sockets of [test_io_shutdown_with_io_error] and
    [test_io_close_with_io_error]: [shutdown] raises [OSError()], [close]
    raises [socket.error()]. *)
Definition env : Env :=
  {| EWOULDBLOCK := 11; EAGAIN := 11; MAX_FRAME_SIZE := 131072;
     has_ipv6 := true; SSL_SUPPORTED := true; DEFAULT_SSL_VERSION := VInt 3;
     getaddrinfo_result := fun _ _ _ _ => inr [Scene.candidate];
     connect_result := fun _ _ => None;
     socket_result := fun _ _ _ => None;
     wrap_socket_result := fun _ _ => None;
     select_result := fun _ => (true, true, false);
     send_result := fun _ => Accept 4096;
     recv_result := fun _ => Recv [];
     shutdown_result := fun _ => Some (Exc OSError []);
     close_result := fun _ => Some (Exc socket_error []) |}.

End Scene_broken_pipe.

Lemma close_returns_witness :
  exists w',
    close Scene_broken_pipe.env Scene.opened Scene.quiet
    = Ret tt (closed Scene.opened) w'
    /\ trace w' = [EvJoin {| thread_name := "amqpstorm.io"; daemon := true |};
                   EvShutdown Scene.sock SHUT_RDWR]
    /\ close Scene_broken_pipe.env (closed Scene.opened) w'
       = Ret tt (closed Scene.opened) w'.
Proof.
  destruct (close_returns Scene_broken_pipe.env Scene.opened Scene.quiet)
    as (w' & Hclose & _ & _ & _ & _ & Htrace & _ & Hagain & _).
  - split; intros t e [= <-]; reflexivity.
  - exists w'. exact (conj Hclose (conj Htrace Hagain)).
Defined.

(** ** Errors without arguments

    Both handlers read [why.args[0]] before deciding.  An error caught by
    the clause that carries no argument at all is therefore neither
    transient nor fatal in the sense above: the lookup raises [IndexError],
    which leaves the method.  Errors raised by the operating system always
    carry an errno or a message. *)
Lemma handlers_need_first_argument env total data cls :
  subclass cls socket_timeout = false ->
  (subclass cls socket_error = true ->
   exists h, write_handler env total (Exc cls []) = Some h
             /\ forall io w,
                  h io w = Raise (Exc IndexError [VStr "tuple index out of range"]) io w)
  /\ (catches [IOError; OSError] (Exc cls []) = true ->
      exists h, receive_handler env data (Exc cls []) = Some h
                /\ forall io w,
                     h io w = Raise (Exc IndexError [VStr "tuple index out of range"]) io w).
Proof.
  intros Htimeout.
  assert (Hnot : catches [socket_timeout] (Exc cls []) = false)
    by (unfold catches; cbn [existsb exc_cls]; by rewrite Htimeout).
  unfold write_handler, receive_handler. rewrite Hnot. split.
  - intros Hsock.
    assert (Hcaught : catches [socket_error] (Exc cls []) = true)
      by (unfold catches; cbn [existsb exc_cls]; by rewrite Hsock).
    rewrite Hcaught. eexists. split; [reflexivity|]. intros io w. reflexivity.
  - intros ->. eexists. split; [reflexivity|]. intros io w. reflexivity.
Qed.

(** * Further properties of the transport *)

(** ** The write loop, whatever the system does *)

(** One pass through the loop body, by outcome.  Going round again leaves
    [self] alone and moves the cursor by exactly the bytes put on the wire;
    a [return] happens only after an append to the sink; an exception
    escapes with [self] and the wire as they were. *)
Definition write_step_ok (frame_data : bytes) (total : nat) (io : IO)
    (sent : bytes) (r : outcome loop_step) : Prop :=
  match r with
  | Ret (Next total') io' w' =>
      io' = io /\ total <= total' <= length frame_data
      /\ wire w' = sent ++ take (total' - total) (drop total frame_data)
  | Ret Return io' w' =>
      wire w' = sent
      /\ exists l why,
           _exceptions io = Some l
           /\ io' = set_exceptions
                      (Some (l ++ [Exc AMQPConnectionError [VExc why]])) io
  | Raise _ io' w' => io' = io /\ wire w' = sent
  | OutOfFuel => False
  end.

Lemma write_handler_cases env frame_data total io w why :
  total <= length frame_data ->
  match write_handler env total why with
  | Some h => write_step_ok frame_data total io (wire w) (h io w)
  | None => True
  end.
Proof.
  intros Hle. unfold write_handler. run.
  destruct (catches [socket_timeout] why).
  { cbn. replace (total - total) with 0 by lia. cbn [firstn]. rewrite app_nil_r. repeat split; done. }
  destruct (catches [socket_error] why); [|done].
  destruct (exc_args why !! 0) as [a|]; cbn -[py_in]; [|done].
  destruct (py_in a [EWOULDBLOCK env; EAGAIN env]); cbn.
  { replace (total - total) with 0 by lia. cbn [firstn]. rewrite app_nil_r. repeat split; done. }
  destruct (_exceptions io) as [l|] eqn:Hsink; cbn; [|by split].
  split; [done|]. exists l, why. split; [exact Hsink|reflexivity].
Qed.

Lemma write_body_cases env frame_data total io w :
  total <= length frame_data ->
  write_step_ok frame_data total io (wire w)
    (write_body env frame_data total io w).
Proof.
  intros Hle.
  pose proof (write_handler_cases env frame_data total io) as Hh.
  unfold write_body, write_attempt, ready_to_write, select_select,
    socket_send. run.
  destruct (socket io) as [sock|]; cbn -[write_handler].
  - destruct (poller io) as [p|]; cbn -[write_handler]; [|done].
    destruct (write p) as [[[rl wl] xl] tmo].
    destruct (select_result env (clock w)) as [[r wr] x]. cbn -[write_handler].
    destruct (truthy (if x then xl else [])); cbn -[write_handler].
    { specialize (Hh (log (EvSelect (rl, wl, xl, tmo)) w)
                     (Exc socket_error [VStr "connection/socket error"]) Hle).
      destruct (write_handler env total _) as [h|]; [exact Hh|done]. }
    destruct (truthy (if wr then wl else [])); cbn -[write_handler].
    + destruct (send_result env _) as [k|e]; cbn -[write_handler].
      * destruct (k `min` length (drop total frame_data) =? 0) eqn:Hz; cbn -[write_handler].
        -- apply Nat.eqb_eq in Hz. rewrite Hz.
           change (take 0 (drop total frame_data)) with (@nil Byte.byte).
           match goal with
           | |- context [transmit [] ?w0] =>
               specialize (Hh w0 (Exc socket_error
                                    [VStr "connection/socket error"]) Hle);
               rewrite (transmit_nil w0)
           end.
           destruct (write_handler env total _) as [h|]; [exact Hh|done].
        -- rewrite length_drop. split; [done|]. split; [lia|].
           by replace (total + k `min` (length frame_data - total) - total)
             with (k `min` (length frame_data - total)) by lia.
      * match goal with
        | |- context [Raise e io ?w0] => specialize (Hh w0 e Hle)
        end.
        destruct (write_handler env total e) as [h|]; [exact Hh|done].
    + replace (total - total) with 0 by lia. cbn [firstn]. rewrite app_nil_r. repeat split; done.
  - specialize (Hh w (Exc socket_error [VStr "connection/socket error"]) Hle).
    destruct (write_handler env total _) as [h|]; [exact Hh|done].
Qed.

(** The whole loop from a cursor, by outcome. *)
Definition write_loop_ok (frame_data : bytes) (total : nat) (io : IO)
    (sent : bytes) (r : outcome nat) : Prop :=
  match r with
  | Ret n io' w' =>
      total <= n <= length frame_data
      /\ wire w' = sent ++ take (n - total) (drop total frame_data)
      /\ ((n = length frame_data /\ io' = io)
          \/ (n < length frame_data
              /\ exists l why,
                   _exceptions io = Some l
                   /\ io' = set_exceptions
                              (Some (l ++ [Exc AMQPConnectionError [VExc why]])) io))
  | Raise _ io' w' =>
      io' = io
      /\ exists n, total <= n <= length frame_data
                   /\ wire w' = sent ++ take (n - total) (drop total frame_data)
  | OutOfFuel => True
  end.

Lemma take_segments (l : bytes) a b c :
  a <= b -> b <= c ->
  take (b - a) (drop a l) ++ take (c - b) (drop b l) = take (c - a) (drop a l).
Proof.
  intros Hab Hbc.
  replace (drop b l) with (drop (b - a) (drop a l))
    by (rewrite drop_drop; f_equal; lia).
  rewrite take_take_drop. f_equal. lia.
Qed.

Lemma write_loop_cases env fuel frame_data :
  forall total io w,
    total <= length frame_data ->
    write_loop_ok frame_data total io (wire w)
      (write_loop env fuel frame_data total io w).
Proof.
  induction fuel as [|fuel IH]; intros total io w Hle; cbn [write_loop];
    destruct (total <? length frame_data) eqn:Hlt;
    try apply Nat.ltb_ge in Hlt; try apply Nat.ltb_lt in Hlt.
  - exact I.
  - cbn. replace (total - total) with 0 by lia.
    change (take 0 (drop total frame_data)) with (@nil Byte.byte).
    rewrite app_nil_r. split; [lia|]. split; [done|]. left. split; [lia|done].
  - unfold bind at 1.
    pose proof (write_body_cases env frame_data total io w Hle) as Hstep.
    destruct (write_body env frame_data total io w) as [[t'|] io1 w1|e io1 w1|];
      cbn in Hstep.
    + destruct Hstep as (-> & Ht' & Hwire).
      specialize (IH t' io w1 (proj2 Ht')). rewrite Hwire in IH.
      destruct (write_loop env fuel frame_data t' io w1) as [n io' w'|e io' w'|];
        cbn in *; [| |done].
      * destruct IH as (Hn & Hw' & Hio). split; [lia|]. split; [|done].
        rewrite Hw', <- app_assoc. f_equal. apply take_segments; lia.
      * destruct IH as (Hio & n & Hn & Hw'). split; [done|].
        exists n. split; [lia|].
        rewrite Hw', <- app_assoc. f_equal. apply take_segments; lia.
    + cbn. destruct Hstep as (Hwire & l & why & Hsink & ->).
      split; [lia|]. split.
      * replace (total - total) with 0 by lia.
        change (take 0 (drop total frame_data)) with (@nil Byte.byte).
        by rewrite app_nil_r.
      * right. split; [done|]. by exists l, why.
    + cbn. destruct Hstep as [-> Hwire]. split; [done|].
      exists total. split; [lia|].
      replace (total - total) with 0 by lia.
      change (take 0 (drop total frame_data)) with (@nil Byte.byte).
      by rewrite app_nil_r.
    + done.
  - cbn. replace (total - total) with 0 by lia.
    change (take 0 (drop total frame_data)) with (@nil Byte.byte).
    rewrite app_nil_r. split; [lia|]. split; [done|]. left. split; [lia|done].
Qed.

(** X1.  Whatever the system does, a call of [write_to_socket] that returns
    has either put the whole of [frame_data] on the wire and left [self]
    alone, or put a strict prefix of it on the wire, in order and without
    repetition, and appended exactly one [AMQPConnectionError] to the sink:
    a short write never goes unreported. *)
Theorem write_to_socket_all_or_error
    (env : Env) (fuel : nat) (frame_data : bytes) (io io' : IO) (w w' : World) :
  write_to_socket env fuel frame_data io w = Ret tt io' w' ->
  (io' = io /\ wire w' = wire w ++ frame_data)
  \/ exists n l why,
       n < length frame_data
       /\ wire w' = wire w ++ take n frame_data
       /\ _exceptions io = Some l
       /\ io' = set_exceptions
                  (Some (l ++ [Exc AMQPConnectionError [VExc why]])) io.
Proof.
  intros Hrun. apply write_to_socket_loop in Hrun as [n Hrun].
  pose proof (write_loop_cases env fuel frame_data 0 io w (Nat.le_0_l _)) as H.
  rewrite Hrun in H. cbn in H. destruct H as (Hn & Hwire & Hio).
  replace (n - 0) with n in Hwire by lia.
  change (drop 0 frame_data) with frame_data in Hwire.
  destruct Hio as [[-> ->]|(Hlt & l & why & Hsink & ->)].
  - left. split; [done|]. by rewrite Hwire, take_ge.
  - right. by exists n, l, why.
Qed.

Lemma write_to_socket_all_or_error_witness :
  (Scene.opened = Scene.opened /\ Scene.message = [] ++ Scene.message)
  \/ exists n l why,
       n < length Scene.message
       /\ Scene.message = [] ++ take n Scene.message
       /\ _exceptions Scene.opened = Some l
       /\ Scene.opened
          = set_exceptions
              (Some (l ++ [Exc AMQPConnectionError [VExc why]])) Scene.opened.
Proof.
  exact (write_to_socket_all_or_error Scene_would_block.env 4 Scene.message
           Scene.opened Scene.opened Scene.quiet Scene_would_block.world
           eq_refl).
Defined.

(** X2.  When an exception does escape [write_to_socket], [self] is as it
    was, the sink included, and the wire still holds a prefix of
    [frame_data]. *)
Theorem write_to_socket_escape
    (env : Env) (fuel : nat) (frame_data : bytes) (io io' : IO) (w w' : World)
    (e : pyexc) :
  write_to_socket env fuel frame_data io w = Raise e io' w' ->
  io' = io
  /\ exists n, n <= length frame_data /\ wire w' = wire w ++ take n frame_data.
Proof.
  unfold write_to_socket, bind.
  pose proof (write_loop_cases env fuel frame_data 0 io w (Nat.le_0_l _)) as H.
  destruct (write_loop env fuel frame_data 0 io w) as [n io1 w1|e1 io1 w1|];
    [done| |done].
  intros [= -> -> ->]. cbn in H. destruct H as (-> & n & Hn & Hwire).
  split; [done|]. exists n. split; [lia|].
  replace (n - 0) with n in Hwire by lia. exact Hwire.
Qed.

Module Scene_bad_send.

(** A [send] that takes two bytes and then raises something that is no
    [socket.error]. *)
Definition why : pyexc := Exc OtherException [VStr "boom"].

Definition env : Env :=
  Scene.with_io (fun _ => (true, true, false))
                (fun t => if t <=? 1 then Accept 2 else SendRaises why)
                (fun _ => Recv []).

Definition world : World :=
  {| trace := [EvSelect (write (Poller_init Scene.sock));
               EvSend Scene.sock Scene.message;
               EvSelect (write (Poller_init Scene.sock));
               EvSend Scene.sock (drop 2 Scene.message)];
     wire := take 2 Scene.message |}.

End Scene_bad_send.

Lemma write_to_socket_escape_witness :
  Scene.opened = Scene.opened
  /\ exists n, n <= length Scene.message
               /\ take 2 Scene.message = [] ++ take n Scene.message.
Proof.
  exact (write_to_socket_escape Scene_bad_send.env 4 Scene.message
           Scene.opened Scene.opened Scene.quiet Scene_bad_send.world
           Scene_bad_send.why eq_refl).
Defined.

(** X4.  On a system whose descriptor is always writable, never in an
    exceptional condition, and whose [send] always takes at least one byte,
    fuel for one round per byte is enough: [write_to_socket] returns, the
    whole payload is on the wire and [self] is as it was. *)
Theorem write_to_socket_returns_when_ready
    (env : Env) (fuel : nat) (frame_data : bytes) (io : IO) (w : World)
    (fd : Socket) :
  (forall t, (select_result env t).1.2 = true) ->
  never_exceptional env ->
  (forall t, exists k, send_result env t = Accept k /\ 0 < k) ->
  socket io = Some fd -> poller io = Some (Poller_init fd) ->
  length frame_data <= fuel ->
  exists w',
    write_to_socket env fuel frame_data io w = Ret tt io w'
    /\ wire w' = wire w ++ frame_data.
Proof.
  intros Hwr Hx Hs Hsock Hp Hfuel.
  destruct (write_loop_returns env fd Hwr Hx Hs fuel frame_data 0 io w Hsock Hp)
    as (n & w' & Hloop); [lia|].
  exists w'.
  assert (Hrun : write_to_socket env fuel frame_data io w = Ret tt io w')
    by (apply write_to_socket_loop; by exists n).
  split; [done|].
  assert (Hcoop : sends_cooperate env).
  { intros t. by destruct (Hs t) as (k & -> & Hk). }
  by destruct (write_loop_sends_all env Hx Hcoop _ _ _ _ _ _ _ _
                 (ex_intro _ fd Hsock) Hloop (Nat.le_0_l _)) as (_ & _ & ->).
Qed.

Module Scene_trickle.

(** A system that takes one byte per [send]. *)
Definition env : Env :=
  Scene.with_io (fun _ => (true, true, false)) (fun _ => Accept 1)
                (fun _ => Recv []).

End Scene_trickle.

Lemma write_to_socket_returns_when_ready_witness :
  exists w',
    write_to_socket Scene_trickle.env 3 Scene.message Scene.opened Scene.quiet
    = Ret tt Scene.opened w'
    /\ wire w' = Scene.message.
Proof.
  apply (write_to_socket_returns_when_ready Scene_trickle.env 3 Scene.message
           Scene.opened Scene.quiet Scene.sock).
  - intros t. reflexivity.
  - intros t. reflexivity.
  - intros t. exists 1. split; [reflexivity|lia].
  - reflexivity.
  - reflexivity.
  - cbn. lia.
Defined.


Module Scene_full.

(** A peer that has stopped reading: the descriptor never becomes
    writable. *)
Definition env : Env :=
  Scene.with_io (fun _ => (false, false, false)) (fun _ => Accept 4096)
                (fun _ => Recv []).

End Scene_full.


(** ** Opening, step by step *)

(** [self] when [open] has reset the buffer and set the Running Flag. *)
Definition opening (io : IO) : IO := set_running true (set_data_in EMPTY_BUFFER io).

Definition inbound : Thread := {| thread_name := "amqpstorm.io"; daemon := true |}.

(** Once the resolver has answered, [open] is the connect phase followed by
    the wiring of socket, poller and thread. *)
Lemma open_resolved env io w addresses :
  getaddrinfo_result env (hostname (_parameters io)) (port (_parameters io))
                     (resolver_family env) SOCK_STREAM = inr addresses ->
  open env io w
  = match _find_address_and_connect env addresses (opening io)
            (log (resolver_query env io) w) with
    | Ret sock io1 w1 =>
        Ret tt
          (set_inbound_thread (Some inbound)
             (set_poller (Some (Poller_init sock)) (set_socket (Some sock) io1)))
          (log (EvStart inbound) w1)
    | Raise e io1 w1 => Raise e io1 w1
    | OutOfFuel => OutOfFuel
    end.
Proof.
  intros Hres.
  unfold open, _get_socket_addresses, socket_getaddrinfo,
    _create_inbound_thread, thread_start, resolver_query, resolver_family,
    opening in *. run.
  destruct (has_ipv6 env); cbn in *; rewrite Hres; reflexivity.
Qed.

Lemma settled_keeps env io :
  _exceptions (settled env io) = _exceptions io
  /\ _running (settled env io) = _running io
  /\ data_in (settled env io) = data_in io
  /\ socket (settled env io) = socket io
  /\ poller (settled env io) = poller io
  /\ _inbound_thread (settled env io) = _inbound_thread io
  /\ use_ssl (settled env io) = use_ssl io.
Proof.
  unfold settled. destruct (use_ssl io) eqn:Hssl;
    [destruct (ssl_options (_parameters io) !! "ssl_version")|];
    repeat split; try reflexivity; exact Hssl.
Qed.

(** X6.  Let the resolver answer with a list in which [address] is the
    first candidate that connects, those before it failing with an
    [IOError]/[OSError], and let a socket be creatable for each candidate up
    to [address] ([socket.socket] and [settimeout] do not raise and, with
    TLS on, the runtime supports it and [ssl.wrap_socket] accepts the
    options).  Then [open] returns:
    the socket is the one connected to [address], the poller is built on
    that very socket, the inbound thread is a started daemon thread, the
    Running Flag is set, the inbound buffer is empty and the sink is
    untouched.  The system calls are the resolver query, the connect
    attempts in list order up to [address], and the start of the thread;
    whatever socket or thread [self] held before is neither closed nor
    joined. *)
Theorem open_connects
    (env : Env) (io : IO) (w : World) (pre post : list addrinfo)
    (address : addrinfo) :
  forallb (fun b => creatable env io (ai_family b)) (pre ++ [address]) = true ->
  getaddrinfo_result env (hostname (_parameters io)) (port (_parameters io))
                     (resolver_family env) SOCK_STREAM
  = inr (pre ++ address :: post) ->
  forallb (fails_to_connect env io) pre = true ->
  connects env io address = true ->
  let sock := connected (socket_for env io (ai_family address))
                        (ai_sockaddr address) in
  exists io' w',
    open env io w = Ret tt io' w'
    /\ socket io' = Some sock
    /\ poller io' = Some (Poller_init sock)
    /\ _inbound_thread io' = Some inbound
    /\ _running io' = true
    /\ data_in io' = EMPTY_BUFFER
    /\ _exceptions io' = _exceptions io
    /\ trace w' = trace w ++ [resolver_query env io]
                  ++ map (attempt env io) (pre ++ [address])
                  ++ [EvStart inbound]
    /\ wire w' = wire w.
Proof.
  intros Hcreate Hres Hpre Hok sock.
  rewrite (open_resolved env io w _ Hres).
  rewrite (find_address_first env (opening io) pre address post Hcreate Hpre Hok
             (opening io) _ (or_introl eq_refl)).
  eexists _, _. split; [reflexivity|].
  destruct (settled_keeps env (opening io)) as (He & Hr & Hd & _).
  cbn. rewrite He, Hr, Hd. repeat split; try done.
  by rewrite <- !app_assoc.
Qed.

Lemma open_connects_witness :
  exists io' w',
    open Scene_two_candidates.env Scene.fresh Scene.quiet = Ret tt io' w'
    /\ socket io' = Some Scene.sock
    /\ poller io' = Some (Poller_init Scene.sock)
    /\ _inbound_thread io' = Some inbound
    /\ _running io' = true
    /\ data_in io' = EMPTY_BUFFER
    /\ _exceptions io' = Some []
    /\ trace w'
       = [EvGetaddrinfo "localhost" 5672 AF_UNSPEC SOCK_STREAM;
          EvConnect (socket_for Scene_two_candidates.env Scene.fresh 10)
                    Scene_two_candidates.broker6;
          EvConnect (socket_for Scene_two_candidates.env Scene.fresh AF_INET)
                    Scene.broker;
          EvStart inbound]
    /\ wire w' = [].
Proof.
  exact (open_connects Scene_two_candidates.env Scene.fresh Scene.quiet
           [Scene_two_candidates.candidate6] [] Scene.candidate
           eq_refl eq_refl eq_refl eq_refl).
Defined.

(** X7.  Let every candidate the resolver returns fail to connect with an
    [IOError]/[OSError], a socket being creatable for each ([socket.socket]
    and [settimeout] do not raise and, with TLS on, the runtime supports it
    and [ssl.wrap_socket] accepts the options).  Then [open] raises
    "Could not connect to host:port" after trying them all in order.  It has
    already reset the buffer and set the Running Flag, and these stay so;
    the socket, poller and thread references are what they were and no
    thread has been started. *)
Theorem open_could_not_connect
    (env : Env) (io : IO) (w : World) (addresses : list addrinfo) :
  forallb (fun b => creatable env io (ai_family b)) addresses = true ->
  getaddrinfo_result env (hostname (_parameters io)) (port (_parameters io))
                     (resolver_family env) SOCK_STREAM
  = inr addresses ->
  forallb (fails_to_connect env io) addresses = true ->
  exists io' w',
    open env io w = Raise (could_not_connect io) io' w'
    /\ _running io' = true
    /\ data_in io' = EMPTY_BUFFER
    /\ socket io' = socket io
    /\ poller io' = poller io
    /\ _inbound_thread io' = _inbound_thread io
    /\ _exceptions io' = _exceptions io
    /\ trace w' = trace w ++ [resolver_query env io]
                  ++ map (attempt env io) addresses.
Proof.
  intros Hcreate Hres Hall.
  rewrite (open_resolved env io w _ Hres).
  rewrite (find_address_none env (opening io) addresses Hcreate Hall
             (opening io) _ (or_introl eq_refl)).
  eexists _, _. split; [reflexivity|].
  destruct (settled_keeps env (opening io)) as (He & Hr & Hd & Hs & Hp & Ht & _).
  destruct addresses; cbn; rewrite ?He, ?Hr, ?Hd, ?Hs, ?Hp, ?Ht;
    repeat split; try done; by rewrite <- ?app_assoc.
Qed.

Module Scene_refused.

(** A host on which nothing listens: every connect is refused. *)
Definition env : Env :=
  {| EWOULDBLOCK := 11; EAGAIN := 11; MAX_FRAME_SIZE := 131072;
     has_ipv6 := true; SSL_SUPPORTED := true; DEFAULT_SSL_VERSION := VInt 3;
     getaddrinfo_result :=
       fun _ _ _ _ => inr [Scene_two_candidates.candidate6; Scene.candidate];
     connect_result := fun _ _ => Some Scene_two_candidates.refused;
     socket_result := fun _ _ _ => None;
     wrap_socket_result := fun _ _ => None;
     select_result := fun _ => (true, true, false);
     send_result := fun _ => Accept 4096;
     recv_result := fun _ => Recv [];
     shutdown_result := fun _ => None;
     close_result := fun _ => None |}.

End Scene_refused.

Lemma open_could_not_connect_witness :
  exists io' w',
    open Scene_refused.env Scene.fresh Scene.quiet
    = Raise (Exc AMQPConnectionError [VStr "Could not connect to localhost:5672"])
        io' w'
    /\ _running io' = true
    /\ data_in io' = EMPTY_BUFFER
    /\ socket io' = None
    /\ poller io' = None
    /\ _inbound_thread io' = None
    /\ _exceptions io' = Some []
    /\ trace w'
       = [EvGetaddrinfo "localhost" 5672 AF_UNSPEC SOCK_STREAM;
          EvConnect (socket_for Scene_refused.env Scene.fresh 10)
                    Scene_two_candidates.broker6;
          EvConnect (socket_for Scene_refused.env Scene.fresh AF_INET)
                    Scene.broker].
Proof.
  exact (open_could_not_connect Scene_refused.env Scene.fresh Scene.quiet
           [Scene_two_candidates.candidate6; Scene.candidate]
           eq_refl eq_refl eq_refl).
Defined.

(** X8.  When TLS is asked for on a runtime without it, the resolver
    returns at least one candidate, and the plain socket for the first
    candidate can be made ([socket.socket] does not raise and [settimeout]
    accepts the configured timeout), [open] raises "Python not compiled with
    support for TLSv1 or higher".  The resolver query is the only system
    call: no connect is attempted.  The Running Flag is left set and the
    buffer is empty; the rest of [self] is as before. *)
Theorem open_without_tls_support
    (env : Env) (io : IO) (w : World) (address : addrinfo)
    (rest : list addrinfo) :
  use_ssl io = true ->
  SSL_SUPPORTED env = false ->
  no_error (socket_result env (ai_family address) SOCK_STREAM 0) = true ->
  timeout_accepted (or_None (timeout (_parameters io))) = true ->
  getaddrinfo_result env (hostname (_parameters io)) (port (_parameters io))
                     (resolver_family env) SOCK_STREAM
  = inr (address :: rest) ->
  open env io w
  = Raise (Exc AMQPConnectionError
             [VStr "Python not compiled with support for TLSv1 or higher"])
      (opening io) (log (resolver_query env io) w).
Proof.
  intros Hssl Hno Hsock Htime Hres. rewrite (open_resolved env io w _ Hres).
  cbn [_find_address_and_connect].
  unfold bind at 1, _create_socket, socket_socket, socket_settimeout. run.
  destruct (socket_result env (ai_family address) SOCK_STREAM 0); [done|].
  cbn in *.
  destruct (or_None (timeout (_parameters io))) as [t|]; cbn in *.
  - destruct (t <? 0)%Z; [done|]. cbn. by rewrite Hssl, Hno.
  - by rewrite Hssl, Hno.
Qed.

Lemma open_without_tls_support_witness :
  open Scene_no_tls.env Scene_no_tls.transport Scene.quiet
  = Raise (Exc AMQPConnectionError
             [VStr "Python not compiled with support for TLSv1 or higher"])
      (set_running true Scene_no_tls.transport)
      {| trace := [EvGetaddrinfo "localhost" 5672 AF_UNSPEC SOCK_STREAM];
         wire := [] |}.
Proof.
  exact (open_without_tls_support Scene_no_tls.env Scene_no_tls.transport
           Scene.quiet Scene.candidate [] eq_refl eq_refl eq_refl eq_refl
           eq_refl).
Defined.

(** X9.  [_ssl_wrap_socket] gives the parameters a protocol version before
    it calls [ssl.wrap_socket].  Whether that call returns or raises, the
    TLS options in the parameters afterwards hold the caller's
    ["ssl_version"] when there was one and [DEFAULT_SSL_VERSION] otherwise,
    and every other option and parameter is what it was.  These options are
    what [ssl.wrap_socket] is called with; when it accepts them the result
    is the socket wrapped with them, and when it raises, its exception
    leaves [_ssl_wrap_socket].  Wrapping once more changes the parameters no
    further. *)
Theorem ssl_wrap_socket_defaults_version
    (env : Env) (sock : Socket) (io : IO) (w : World) :
  exists io',
    let before := ssl_options (_parameters io) in
    let after := ssl_options (_parameters io') in
    _ssl_wrap_socket env sock io w
    = match wrap_socket_result env sock after with
      | None =>
          Ret {| sock_family := sock_family sock; sock_type := sock_type sock;
                 sock_proto := sock_proto sock; sock_timeout := sock_timeout sock;
                 sock_ssl := Some after; sock_peer := sock_peer sock |}
            io' w
      | Some e => Raise e io' w
      end
    /\ after !! "ssl_version"
       = Some (default (DEFAULT_SSL_VERSION env) (before !! "ssl_version"))
    /\ (forall key, key <> "ssl_version" -> after !! key = before !! key)
    /\ hostname (_parameters io') = hostname (_parameters io)
    /\ port (_parameters io') = port (_parameters io)
    /\ timeout (_parameters io') = timeout (_parameters io)
    /\ ssl (_parameters io') = ssl (_parameters io)
    /\ forall sock2,
         _ssl_wrap_socket env sock2 io' w
         = match wrap_socket_result env sock2 after with
           | None =>
               Ret {| sock_family := sock_family sock2;
                      sock_type := sock_type sock2;
                      sock_proto := sock_proto sock2;
                      sock_timeout := sock_timeout sock2;
                      sock_ssl := Some after; sock_peer := sock_peer sock2 |}
                 io' w
           | Some e => Raise e io' w
           end.
Proof.
  unfold _ssl_wrap_socket, ssl_wrap_socket. run.
  destruct (ssl_options (_parameters io) !! "ssl_version") as [v|] eqn:Hv;
    cbn -[lookup insert].
  - exists io. cbn -[lookup insert]. rewrite Hv.
    split; [by destruct (wrap_socket_result env _ _)|].
    repeat split; try done.
    intros sock2. by destruct (wrap_socket_result env _ _).
  - exists (set_parameters
              {| hostname := hostname (_parameters io);
                 port := port (_parameters io);
                 timeout := timeout (_parameters io);
                 ssl := ssl (_parameters io);
                 ssl_options := <["ssl_version" := DEFAULT_SSL_VERSION env]>
                                  (ssl_options (_parameters io)) |} io).
    cbn -[lookup insert]. rewrite lookup_insert_eq.
    split; [by destruct (wrap_socket_result env _ _)|].
    repeat split; try done.
    + intros key Hkey. by rewrite lookup_insert_ne.
    + intros sock2. by destruct (wrap_socket_result env _ _).
Qed.

Lemma find_address_returns env io :
  forall addresses io0 w sock io' w',
    io0 = io \/ io0 = settled env io ->
    _find_address_and_connect env addresses io0 w = Ret sock io' w' ->
    exists pre address post,
      addresses = pre ++ address :: post
      /\ forallb (fails_to_connect env io) pre = true
      /\ connects env io address = true
      /\ sock = connected (socket_for env io (ai_family address))
                          (ai_sockaddr address).
Proof.
  intros addresses.
  induction addresses as [|b rest IH]; intros io0 w sock io' w' Hio0.
  - done.
  - destruct (creatable env io (ai_family b)) eqn:Hcreate.
    + rewrite (find_address_step env io _ _ io0 w Hcreate Hio0).
      destruct (connect_result env _ _) as [e|] eqn:Hres.
      * destruct (catches [IOError; OSError] e) eqn:Hcaught; [|done].
        intros Hrun.
        apply IH in Hrun as (pre & a & post & -> & Hpre & Hok & ->);
          [|by right].
        exists (b :: pre), a, post. repeat split; try done.
        cbn. unfold fails_to_connect at 1. by rewrite Hres, Hcaught.
      * intros [= <- <- <-]. exists [], b, rest. repeat split; try done.
        unfold connects. by rewrite Hres.
    + assert (Hcreate0 : creatable env io0 (ai_family b) = false)
        by (destruct Hio0 as [->| ->]; [done|by rewrite creatable_settled]).
      cbn [_find_address_and_connect]. unfold bind at 1.
      destruct (_create_socket env (ai_family b) io0 w) as [s0 io1 w1| |]
        eqn:Hmade; [|done..].
      apply create_socket_returns in Hmade. congruence.
Qed.

(** X10.  Whenever the connect phase returns a socket, with or without TLS,
    that socket is the one built for some candidate of the list and
    connected to its address, that candidate's connect succeeded, and every
    candidate before it was tried and failed with an [IOError]/[OSError]:
    the result is never a later candidate when an earlier one connects. *)
Theorem find_address_and_connect_sound
    (env : Env) (addresses : list addrinfo) (io io' : IO) (w w' : World)
    (sock : Socket) :
  _find_address_and_connect env addresses io w = Ret sock io' w' ->
  exists pre address post,
    addresses = pre ++ address :: post
    /\ forallb (fails_to_connect env io) pre = true
    /\ connects env io address = true
    /\ sock = connected (socket_for env io (ai_family address))
                        (ai_sockaddr address)
    /\ sock_peer sock = Some (ai_sockaddr address).
Proof.
  intros Hrun.
  apply (find_address_returns env io) in Hrun
    as (pre & a & post & ? & ? & ? & ->); [|by left].
  by exists pre, a, post.
Qed.

Lemma find_address_and_connect_sound_witness :
  exists pre address post,
    [Scene_two_candidates.candidate6; Scene.candidate] = pre ++ address :: post
    /\ forallb (fails_to_connect Scene_two_candidates.env Scene.fresh) pre = true
    /\ connects Scene_two_candidates.env Scene.fresh address = true
    /\ Scene.sock
       = connected (socket_for Scene_two_candidates.env Scene.fresh
                      (ai_family address))
                   (ai_sockaddr address)
    /\ sock_peer Scene.sock = Some (ai_sockaddr address).
Proof.
  exact (find_address_and_connect_sound Scene_two_candidates.env
           [Scene_two_candidates.candidate6; Scene.candidate]
           Scene.fresh Scene.fresh Scene.quiet
           {| trace := [EvConnect (socket_for Scene_two_candidates.env Scene.fresh 10)
                                  Scene_two_candidates.broker6;
                        EvConnect (socket_for Scene_two_candidates.env Scene.fresh
                                     AF_INET)
                                  Scene.broker];
              wire := [] |}
           Scene.sock eq_refl).
Defined.

(** X11.  Only [IOError] and [OSError] move the connect phase on to the
    next candidate.  When, after candidates that failed that way, a connect
    raises anything else, a socket being creatable for each candidate so
    far, that exception leaves the connect phase as it is and the candidates
    after it are not attempted. *)
Theorem find_address_and_connect_stops
    (env : Env) (io : IO) (w : World) (pre post : list addrinfo)
    (address : addrinfo) (why : pyexc) :
  forallb (fun b => creatable env io (ai_family b)) (pre ++ [address]) = true ->
  forallb (fails_to_connect env io) pre = true ->
  connect_result env (socket_for env io (ai_family address)) (ai_sockaddr address)
  = Some why ->
  catches [IOError; OSError] why = false ->
  _find_address_and_connect env (pre ++ address :: post) io w
  = Raise why (settled env io) (after_attempts env io (pre ++ [address]) w).
Proof.
  intros Hcreate Hpre Hres Hwhy.
  assert (H : forall io0 w0,
            io0 = io \/ io0 = settled env io ->
            _find_address_and_connect env (pre ++ address :: post) io0 w0
            = Raise why (settled env io)
                (after_attempts env io (pre ++ [address]) w0));
    [|by apply H; left].
  induction pre as [|b pre IH]; intros io0 w0 Hio0; cbn [app] in *;
    cbn [forallb] in Hcreate; apply andb_true_iff in Hcreate as [Hb0 Hcreate];
    rewrite (find_address_step env io _ _ io0 w0 Hb0 Hio0).
  - rewrite Hres, Hwhy.
    by rewrite <- after_attempts_cons, after_attempts_nil.
  - cbn in Hpre. apply andb_true_iff in Hpre as [Hb Hpre].
    unfold fails_to_connect in Hb.
    destruct (connect_result env _ _) as [e|]; [|done]. rewrite Hb.
    rewrite (IH Hcreate Hpre) by (by right). by rewrite after_attempts_cons.
Qed.

Module Scene_bad_port.

(** The IPv6 candidate is refused; the connect to the IPv4 one raises an
    [OverflowError], which is neither [IOError] nor [OSError]. *)
Definition overflow : pyexc :=
  Exc OtherException [VStr "getsockaddrarg: port must be 0-65535."].

Definition env : Env :=
  {| EWOULDBLOCK := 11; EAGAIN := 11; MAX_FRAME_SIZE := 131072;
     has_ipv6 := true; SSL_SUPPORTED := true; DEFAULT_SSL_VERSION := VInt 3;
     getaddrinfo_result :=
       fun _ _ _ _ => inr [Scene_two_candidates.candidate6; Scene.candidate];
     connect_result :=
       fun s _ => if (sock_family s =? 10)%Z
                  then Some Scene_two_candidates.refused else Some overflow;
     socket_result := fun _ _ _ => None;
     wrap_socket_result := fun _ _ => None;
     select_result := fun _ => (true, true, false);
     send_result := fun _ => Accept 4096;
     recv_result := fun _ => Recv [];
     shutdown_result := fun _ => None;
     close_result := fun _ => None |}.

End Scene_bad_port.

Lemma find_address_and_connect_stops_witness :
  _find_address_and_connect Scene_bad_port.env
    [Scene_two_candidates.candidate6; Scene.candidate;
     Scene_two_candidates.candidate6] Scene.fresh Scene.quiet
  = Raise Scene_bad_port.overflow Scene.fresh
      {| trace := [EvConnect (socket_for Scene_bad_port.env Scene.fresh 10)
                             Scene_two_candidates.broker6;
                   EvConnect (socket_for Scene_bad_port.env Scene.fresh AF_INET)
                             Scene.broker];
         wire := [] |}.
Proof.
  exact (find_address_and_connect_stops Scene_bad_port.env Scene.fresh
           Scene.quiet [Scene_two_candidates.candidate6]
           [Scene_two_candidates.candidate6] Scene.candidate
           Scene_bad_port.overflow eq_refl eq_refl eq_refl eq_refl).
Defined.

(** X3.  The socket for a candidate is created outside the [try] that
    guards its connect.  When, after candidates that failed to connect,
    [socket.socket] raises for a candidate, that exception leaves the
    connect phase as it is, even if it is an [IOError]/[OSError]: no connect
    to that candidate is attempted, the candidates after it are not tried,
    and no "Could not connect" error is raised. *)
Theorem find_address_and_connect_uncreatable
    (env : Env) (io : IO) (w : World) (pre post : list addrinfo)
    (address : addrinfo) (why : pyexc) :
  forallb (fun b => creatable env io (ai_family b)) pre = true ->
  forallb (fails_to_connect env io) pre = true ->
  socket_result env (ai_family address) SOCK_STREAM 0 = Some why ->
  _find_address_and_connect env (pre ++ address :: post) io w
  = Raise why (match pre with [] => io | _ :: _ => settled env io end)
      (after_attempts env io pre w).
Proof.
  intros Hcreate Hpre Hwhy.
  assert (H : forall io0 w0,
            io0 = io \/ io0 = settled env io ->
            _find_address_and_connect env (pre ++ address :: post) io0 w0
            = Raise why (match pre with [] => io0 | _ :: _ => settled env io end)
                (after_attempts env io pre w0));
    [|by apply H; left].
  induction pre as [|b pre IH]; intros io0 w0 Hio0; cbn [app] in *.
  - cbn [_find_address_and_connect].
    unfold bind at 1, _create_socket, socket_socket. run.
    by rewrite Hwhy, after_attempts_nil.
  - cbn [forallb] in Hcreate. apply andb_true_iff in Hcreate as [Hb0 Hcreate].
    rewrite (find_address_step env io _ _ io0 w0 Hb0 Hio0).
    cbn in Hpre. apply andb_true_iff in Hpre as [Hb Hpre].
    unfold fails_to_connect in Hb.
    destruct (connect_result env _ _) as [e|]; [|done]. rewrite Hb.
    rewrite (IH Hcreate Hpre) by (by right). rewrite after_attempts_cons.
    by destruct pre.
Qed.

Module Scene_no_ipv4.

(** Every connect is refused, and no IPv4 socket can be created. *)
Definition unsupported : pyexc :=
  Exc socket_error [VInt 97; VStr "Address family not supported by protocol"].

Definition env : Env :=
  {| EWOULDBLOCK := 11; EAGAIN := 11; MAX_FRAME_SIZE := 131072;
     has_ipv6 := true; SSL_SUPPORTED := true; DEFAULT_SSL_VERSION := VInt 3;
     getaddrinfo_result :=
       fun _ _ _ _ => inr [Scene_two_candidates.candidate6; Scene.candidate];
     connect_result := fun _ _ => Some Scene_two_candidates.refused;
     socket_result := fun family _ _ =>
                        if (family =? 2)%Z then Some unsupported else None;
     wrap_socket_result := fun _ _ => None;
     select_result := fun _ => (true, true, false);
     send_result := fun _ => Accept 4096;
     recv_result := fun _ => Recv [];
     shutdown_result := fun _ => None;
     close_result := fun _ => None |}.

End Scene_no_ipv4.

Lemma find_address_and_connect_uncreatable_witness :
  _find_address_and_connect Scene_no_ipv4.env
    [Scene_two_candidates.candidate6; Scene.candidate;
     Scene_two_candidates.candidate6] Scene.fresh Scene.quiet
  = Raise Scene_no_ipv4.unsupported Scene.fresh
      {| trace := [EvConnect (socket_for Scene_no_ipv4.env Scene.fresh 10)
                             Scene_two_candidates.broker6];
         wire := [] |}.
Proof.
  exact (find_address_and_connect_uncreatable Scene_no_ipv4.env Scene.fresh
           Scene.quiet [Scene_two_candidates.candidate6]
           [Scene_two_candidates.candidate6] Scene.candidate
           Scene_no_ipv4.unsupported eq_refl eq_refl eq_refl).
Defined.

(** X12.  [_get_socket_addresses] wraps [socket.gaierror] and nothing else:
    any other exception of the resolver, a plain [socket.error] included,
    leaves it, and [open], unchanged, after the one resolver query. *)
Theorem get_socket_addresses_passes_other_errors
    (env : Env) (io : IO) (w : World) (why : pyexc) :
  getaddrinfo_result env (hostname (_parameters io)) (port (_parameters io))
                     (resolver_family env) SOCK_STREAM = inl why ->
  catches [socket_gaierror] why = false ->
  _get_socket_addresses env io w = Raise why io (log (resolver_query env io) w)
  /\ open env io w = Raise why (opening io) (log (resolver_query env io) w).
Proof.
  intros Hres Hwhy.
  unfold open, _get_socket_addresses, socket_getaddrinfo, resolver_query,
    resolver_family, opening in *. run.
  destruct (has_ipv6 env); cbn -[catches] in *; rewrite Hres, Hwhy; done.
Qed.

Lemma get_socket_addresses_passes_other_errors_witness :
  _get_socket_addresses Scene_resolver_down.env Scene.fresh Scene.quiet
  = Raise Scene_resolver_down.why Scene.fresh
      {| trace := [EvGetaddrinfo "localhost" 5672 AF_INET SOCK_STREAM];
         wire := [] |}
  /\ open Scene_resolver_down.env Scene.fresh Scene.quiet
     = Raise Scene_resolver_down.why (set_running true Scene.fresh)
         {| trace := [EvGetaddrinfo "localhost" 5672 AF_INET SOCK_STREAM];
            wire := [] |}.
Proof.
  exact (get_socket_addresses_passes_other_errors Scene_resolver_down.env
           Scene.fresh Scene.quiet Scene_resolver_down.why eq_refl eq_refl).
Defined.

(** ** The reader loop, whatever the system does *)

(** The events the reader may cause: readiness waits and reads. *)
Definition is_read_event (ev : event) : bool :=
  match ev with
  | EvSelect _ | EvRecv _ _ => true
  | _ => false
  end.

(** What a stretch of reading may do to [self] and the world, whether it
    ends by returning or by raising: only waits and reads happen, nothing
    goes onto the wire, and the socket, the poller, the thread reference and
    the consumer stay what they were. *)
Definition reads_only {A} (io : IO) (w : World) (r : outcome A) : Prop :=
  match r with
  | Ret _ io' w' | Raise _ io' w' =>
      (exists evs, trace w' = trace w ++ evs /\ forallb is_read_event evs = true)
      /\ wire w' = wire w
      /\ socket io' = socket io
      /\ poller io' = poller io
      /\ _inbound_thread io' = _inbound_thread io
      /\ _on_read_impl io' = _on_read_impl io
  | OutOfFuel => True
  end.

#[local] Arguments reads_only : simpl never.

Lemma reads_only_here {A} (io : IO) (w : World) (r : outcome A) evs :
  forallb is_read_event evs = true ->
  match r with
  | Ret _ io' w' | Raise _ io' w' =>
      trace w' = trace w ++ evs /\ wire w' = wire w
      /\ socket io' = socket io /\ poller io' = poller io
      /\ _inbound_thread io' = _inbound_thread io
      /\ _on_read_impl io' = _on_read_impl io
  | OutOfFuel => True
  end ->
  reads_only io w r.
Proof.
  intros Hevs. destruct r as [a io' w'|e io' w'|]; [| |done];
    intros (Ht & Hw & Hrest); (split; [by exists evs|done]).
Qed.

Lemma reads_only_trans {A B} (io io1 : IO) (w w1 : World) (a : A)
    (r : outcome B) :
  reads_only io w (Ret a io1 w1) -> reads_only io1 w1 r -> reads_only io w r.
Proof.
  intros ([evs [Ht Hevs]] & Hw & Hs & Hp & Hth & Hi).
  destruct r as [b io' w'|e io' w'|]; [| |done];
    intros ([evs' [Ht' Hevs']] & Hw' & Hs' & Hp' & Hth' & Hi');
    (split; [exists (evs ++ evs'); split;
               [by rewrite Ht', Ht, <- app_assoc
               |by rewrite forallb_app, Hevs, Hevs']
            |repeat split; congruence]).
Qed.

Lemma receive_reads_only env io w : reads_only io w (_receive env io w).
Proof.
  unfold _receive, socket_recv, receive_handler. run.
  destruct (socket io) as [sock|].
  - apply (reads_only_here io w _ [EvRecv sock (MAX_FRAME_SIZE env)] eq_refl).
    destruct (recv_result env (clock w)) as [d|e]; cbn -[catches py_in]; [done|].
    destruct (catches [socket_timeout] e); [done|].
    destruct (catches [IOError; OSError] e); [|done].
    destruct (exc_args e !! 0) as [a|]; cbn -[py_in]; [|done].
    destruct (negb (py_in a [EWOULDBLOCK env; EAGAIN env])); [|done].
    by destruct (_exceptions io).
  - apply (reads_only_here io w _ [] eq_refl). cbn. rewrite app_nil_r.
    by destruct (_exceptions io).
Qed.

Lemma process_iteration_reads_only env io w :
  reads_only io w (process_iteration env io w).
Proof.
  unfold process_iteration, ready_to_read, select_select. run.
  destruct (poller io) as [p|] eqn:Hp; cbn;
    [|apply (reads_only_here io w _ [] eq_refl); by rewrite app_nil_r].
  destruct (read p) as [[[rl wl] xl] tmo].
  destruct (select_result env (clock w)) as [[r wr] x].
  assert (Hsel : reads_only io w
                   (Ret tt io (log (EvSelect (rl, wl, xl, tmo)) w)))
    by (by apply (reads_only_here io w _ [EvSelect (rl, wl, xl, tmo)] eq_refl)).
  destruct (truthy (if r then rl else [])); [|exact Hsel].
  apply (reads_only_trans _ _ _ _ _ _ Hsel).
  pose proof (receive_reads_only env io (log (EvSelect (rl, wl, xl, tmo)) w))
    as Hrecv.
  destruct (_receive env io _) as [data io1 w1|e io1 w1|]; [| exact Hrecv|done].
  cbn. destruct Hrecv as (Hevs & Hw & Hs & Hpo & Hth & Hi).
  destruct (_on_read_impl io1) eqn:Himpl; unfold reads_only; cbn;
    repeat split; try done; congruence.
Qed.

(** X13.  However long it runs and however it ends, by returning or by an
    exception, the reader loop causes nothing but readiness waits and reads:
    it puts nothing on the wire and leaves the socket, the poller, the
    thread reference and the consumer of [self] as they were. *)
Theorem reader_loop_reads_only (env : Env) (fuel : nat) (io : IO) (w : World) :
  reads_only io w (_process_incoming_data env fuel io w).
Proof.
  revert io w.
  assert (Hhere : forall io w, reads_only io w (Ret tt io w)).
  { intros io w. apply (reads_only_here io w _ [] eq_refl). cbn.
    by rewrite app_nil_r. }
  induction fuel as [|fuel IH]; intros io w; cbn [_process_incoming_data];
    unfold bind at 1, get_self; destruct (_running io); try done;
    try apply Hhere.
  unfold bind at 1.
  pose proof (process_iteration_reads_only env io w) as Hiter.
  destruct (process_iteration env io w) as [[] io1 w1|e io1 w1|];
    [|exact Hiter|done].
  exact (reads_only_trans _ _ _ _ _ _ Hiter (IH io1 w1)).
Qed.




(** X15.  A transport built without a consumer ([on_read_impl] left at
    [None]) cannot run its reader loop: the first iteration that finds the
    descriptor readable raises [TypeError] after the read, with the bytes
    received already appended to the inbound buffer. *)
Theorem process_iteration_without_consumer
    (env : Env) (io io2 : IO) (w w1 w2 : World) (p : Poller)
    (rlist : list Socket) (received : bytes) :
  _on_read_impl io = None ->
  poller io = Some p ->
  ready_to_read env p io w = Ret rlist io w1 -> truthy rlist = true ->
  _receive env io w1 = Ret received io2 w2 ->
  process_iteration env io w
  = Raise (Exc TypeError [VStr "'NoneType' object is not callable"])
      (set_data_in (data_in io ++ received) io2) w2.
Proof.
  intros Himpl Hp Hready Hr Hrecv.
  apply receive_keeps_buffer in Hrecv as Hkeep. destruct Hkeep as [_ Hkeep].
  unfold process_iteration. run.
  rewrite Hp, Hready, Hr, Hrecv. cbn. by rewrite Hkeep, Himpl.
Qed.

Lemma process_iteration_without_consumer_witness :
  process_iteration Scene_reader.env
    (set_poller (Some (Poller_init Scene.sock))
       (set_socket (Some Scene.sock)
          (set_running true (IO_init Scene.parameters (Some []) None))))
    Scene.quiet
  = Raise (Exc TypeError [VStr "'NoneType' object is not callable"])
      (set_data_in Scene.message
         (set_poller (Some (Poller_init Scene.sock))
            (set_socket (Some Scene.sock)
               (set_running true (IO_init Scene.parameters (Some []) None)))))
      Scene_reader.after_one_read.
Proof.
  exact (process_iteration_without_consumer Scene_reader.env
           (set_poller (Some (Poller_init Scene.sock))
              (set_socket (Some Scene.sock)
                 (set_running true (IO_init Scene.parameters (Some []) None))))
           (set_poller (Some (Poller_init Scene.sock))
              (set_socket (Some Scene.sock)
                 (set_running true (IO_init Scene.parameters (Some []) None))))
           Scene.quiet
           (log (EvSelect (read (Poller_init Scene.sock))) Scene.quiet)
           Scene_reader.after_one_read
           (Poller_init Scene.sock) [Scene.sock] Scene.message
           eq_refl eq_refl eq_refl eq_refl eq_refl).
Defined.

(** Every exception [recv] raises is an [IOError] or [OSError] that is a
    timeout or carries a first argument. *)
Definition recv_errors_are_os_errors (env : Env) : Prop :=
  forall t e,
    recv_result env t = RecvRaises e ->
    catches [IOError; OSError] e = true
    /\ (catches [socket_timeout] e = true \/ is_Some (exc_args e !! 0)).

(** X16.  With a sink in place and a [recv] that raises nothing but errors
    of the kind the operating system raises, [_receive] always returns, as
    its docstring says; and what it returns is empty unless the read itself
    delivered bytes. *)
Theorem receive_always_returns
    (env : Env) (io : IO) (w : World) (l : list pyexc) :
  recv_errors_are_os_errors env ->
  _exceptions io = Some l ->
  exists data io' w',
    _receive env io w = Ret data io' w'
    /\ (data = EMPTY_BUFFER
        \/ exists sock delivered,
             socket io = Some sock
             /\ recv_result env (clock w) = Recv delivered
             /\ data = take (Z.to_nat (MAX_FRAME_SIZE env)) delivered
             /\ io' = io).
Proof.
  intros Hrecv Hsink. unfold _receive, socket_recv, receive_handler. run.
  destruct (socket io) as [sock|].
  - destruct (recv_result env (clock w)) as [d|e] eqn:Hres; cbn -[catches py_in].
    + eexists _, _, _. split; [reflexivity|]. right. by exists sock, d.
    + destruct (Hrecv _ _ Hres) as [Hcaught Hargs].
      destruct (catches [socket_timeout] e); [by eexists _, _, _; split; [|left]|].
      rewrite Hcaught. destruct Hargs as [|[a ->]]; [done|]. cbn -[py_in].
      destruct (negb (py_in a [EWOULDBLOCK env; EAGAIN env])).
      * rewrite Hsink. by eexists _, _, _; split; [|left].
      * by eexists _, _, _; split; [|left].
  - cbn. rewrite Hsink. by eexists _, _, _; split; [|left].
Qed.

Lemma receive_always_returns_witness :
  exists data io' w',
    _receive Scene_fatal.env Scene.opened Scene.quiet = Ret data io' w'
    /\ (data = EMPTY_BUFFER
        \/ exists sock delivered,
             socket Scene.opened = Some sock
             /\ recv_result Scene_fatal.env (clock Scene.quiet) = Recv delivered
             /\ data = take (Z.to_nat (MAX_FRAME_SIZE Scene_fatal.env)) delivered
             /\ io' = Scene.opened).
Proof.
  apply (receive_always_returns Scene_fatal.env Scene.opened Scene.quiet []).
  - intros t e [= <-]. split; [reflexivity|]. right. by eexists.
  - reflexivity.
Defined.

(** ** Closing, and what comes after *)

Definition after_close (env : Env) (io : IO) (w : World) : World :=
  {| trace := trace w ++ joins io
              ++ hangs_up env io (length (trace w ++ joins io));
     wire := wire w |}.

Lemma close_swallows env io w :
  hangup_errors_are_os_errors env ->
  close env io w = Ret tt (closed io) (after_close env io w).
Proof.
  intros [Hshutdown Hclose].
  destruct io as [exs th onr rn params din pol sk tls], w as [tr wi].
  unfold close, _close_socket, socket_shutdown, socket_close, thread_join,
    after_close, joins, hangs_up, closed, clock, log. run.
  destruct th as [t|], sk as [sock|]; cbn -[catches]; rewrite ?app_nil_r;
    try reflexivity;
    (destruct (shutdown_result env _) as [e|] eqn:Hsh; cbn -[catches];
     [rewrite (Hshutdown _ _ Hsh)
     |destruct (close_result env _) as [e|] eqn:Hcl; cbn -[catches];
      [rewrite (Hclose _ _ Hcl)|]]);
    cbn; by rewrite <- ?app_assoc.
Qed.

(** X17.  [_close_socket] swallows [OSError] and [socket.error] only.  When
    the shutdown, or after a successful shutdown the close, raises anything
    else, that exception leaves [close]: the Running Flag is cleared and the
    thread joined, but the socket, poller and thread references are still
    in place; and after a shutdown that raised, the socket's [close] is not
    called. *)
Theorem close_propagates
    (env : Env) (io : IO) (w : World) (sock : Socket) (why : pyexc) :
  socket io = Some sock ->
  catches [OSError; socket_error] why = false ->
  let now := length (trace w ++ joins io) in
  (shutdown_result env now = Some why ->
   close env io w
   = Raise why (set_running false io)
       {| trace := trace w ++ joins io ++ [EvShutdown sock SHUT_RDWR];
          wire := wire w |})
  /\ (shutdown_result env now = None ->
      close_result env (S now) = Some why ->
      close env io w
      = Raise why (set_running false io)
          {| trace := trace w ++ joins io
                      ++ [EvShutdown sock SHUT_RDWR; EvClose sock];
             wire := wire w |}).
Proof.
  intros Hsock Hwhy now. subst now.
  destruct io as [exs th onr rn params din pol sk tls], w as [tr wi].
  cbn in Hsock. subst sk.
  unfold close, _close_socket, socket_shutdown, socket_close, thread_join,
    joins, clock, log. run.
  destruct th as [t|]; cbn -[catches]; rewrite ?app_nil_r; split.
  - intros ->. cbn -[catches]. rewrite Hwhy. by rewrite <- app_assoc.
  - intros -> Hcl. cbn -[catches].
    replace (length ((tr ++ [EvJoin t]) ++ [EvShutdown sock SHUT_RDWR]))
      with (S (length (tr ++ [EvJoin t]))) by (rewrite !length_app; cbn; lia).
    rewrite Hcl. cbn -[catches]. rewrite Hwhy. by rewrite <- !app_assoc.
  - intros ->. cbn -[catches]. by rewrite Hwhy.
  - intros -> Hcl. cbn -[catches].
    replace (length (tr ++ [EvShutdown sock SHUT_RDWR]))
      with (S (length tr)) by (rewrite !length_app; cbn; lia).
    rewrite Hcl. cbn -[catches]. rewrite Hwhy. by rewrite <- !app_assoc.
Qed.

Module Scene_bad_shutdown.

(** A [shutdown] that raises a plain [IOError], which under Python 2 is
    neither an [OSError] nor a [socket.error]. *)
Definition why : pyexc := Exc IOError [VInt 5; VStr "Input/output error"].

Definition env : Env :=
  {| EWOULDBLOCK := 11; EAGAIN := 11; MAX_FRAME_SIZE := 131072;
     has_ipv6 := true; SSL_SUPPORTED := true; DEFAULT_SSL_VERSION := VInt 3;
     getaddrinfo_result := fun _ _ _ _ => inr [Scene.candidate];
     connect_result := fun _ _ => None;
     socket_result := fun _ _ _ => None;
     wrap_socket_result := fun _ _ => None;
     select_result := fun _ => (true, true, false);
     send_result := fun _ => Accept 4096;
     recv_result := fun _ => Recv [];
     shutdown_result := fun _ => Some why;
     close_result := fun _ => None |}.

End Scene_bad_shutdown.

Lemma close_propagates_witness :
  close Scene_bad_shutdown.env Scene.opened Scene.quiet
  = Raise Scene_bad_shutdown.why (set_running false Scene.opened)
      {| trace := [EvJoin inbound; EvShutdown Scene.sock SHUT_RDWR];
         wire := [] |}.
Proof.
  destruct (close_propagates Scene_bad_shutdown.env Scene.opened Scene.quiet
              Scene.sock Scene_bad_shutdown.why eq_refl eq_refl)
    as [Hshutdown _].
  apply Hshutdown. reflexivity.
Defined.

(** X18.  Opening and then closing.  Under the conditions in which [open]
    connects to [address] (a socket creatable for each candidate up to
    [address], those before it failing to connect), and with a [shutdown] and [close] that raise
    nothing but [OSError] or [socket.error], [close] after [open] returns:
    the thread it joins is the one [open] started, the socket it shuts down
    is the one [open] connected, the join comes first, and afterwards the
    references are [None], the Running Flag is cleared and the sink is
    still what it was before [open]. *)
Theorem open_then_close
    (env : Env) (io : IO) (w : World) (pre post : list addrinfo)
    (address : addrinfo) :
  forallb (fun b => creatable env io (ai_family b)) (pre ++ [address]) = true ->
  getaddrinfo_result env (hostname (_parameters io)) (port (_parameters io))
                     (resolver_family env) SOCK_STREAM
  = inr (pre ++ address :: post) ->
  forallb (fails_to_connect env io) pre = true ->
  connects env io address = true ->
  hangup_errors_are_os_errors env ->
  let sock := connected (socket_for env io (ai_family address))
                        (ai_sockaddr address) in
  exists io1 w1 w2 rest,
    open env io w = Ret tt io1 w1
    /\ close env io1 w1 = Ret tt (closed io1) w2
    /\ trace w2 = trace w1 ++ [EvJoin inbound; EvShutdown sock SHUT_RDWR] ++ rest
    /\ (rest = [] \/ rest = [EvClose sock])
    /\ socket (closed io1) = None
    /\ poller (closed io1) = None
    /\ _inbound_thread (closed io1) = None
    /\ _running (closed io1) = false
    /\ _exceptions (closed io1) = _exceptions io.
Proof.
  intros Hcreate Hres Hpre Hok Hhang sock.
  rewrite (open_resolved env io w _ Hres).
  rewrite (find_address_first env (opening io) pre address post Hcreate Hpre Hok
             (opening io) _ (or_introl eq_refl)).
  match goal with
  | |- exists io1 w1 w2 rest, Ret tt ?i ?v = _ /\ _ =>
      exists i, v, (after_close env i v),
        (match shutdown_result env (length (trace v ++ [EvJoin inbound])) with
         | Some _ => []
         | None => [EvClose sock]
         end)
  end.
  split; [reflexivity|]. split; [by apply close_swallows|].
  destruct (settled_keeps env (opening io)) as (He & _).
  unfold after_close, joins, hangs_up. cbn -[app]. rewrite He.
  split; [|repeat split; try done].
  - by destruct (shutdown_result env _).
  - destruct (shutdown_result env _); [by left|by right].
Qed.

Lemma open_then_close_witness :
  exists io1 w1 w2 rest,
    open Scene_two_candidates.env Scene.fresh Scene.quiet = Ret tt io1 w1
    /\ close Scene_two_candidates.env io1 w1 = Ret tt (closed io1) w2
    /\ trace w2 = trace w1 ++ [EvJoin inbound; EvShutdown Scene.sock SHUT_RDWR]
                  ++ rest
    /\ (rest = [] \/ rest = [EvClose Scene.sock])
    /\ socket (closed io1) = None
    /\ poller (closed io1) = None
    /\ _inbound_thread (closed io1) = None
    /\ _running (closed io1) = false
    /\ _exceptions (closed io1) = Some [].
Proof.
  apply (open_then_close Scene_two_candidates.env Scene.fresh Scene.quiet
           [Scene_two_candidates.candidate6] [] Scene.candidate
           eq_refl eq_refl eq_refl eq_refl).
  split; intros t e [=].
Defined.

(** X19.  A closed transport cannot be used.  After [close], with a sink in
    place: a write of a non-empty buffer sends nothing, makes no system call
    and appends one [AMQPConnectionError] to the sink; a receive step does
    the same and yields no bytes; and the reader loop returns at once. *)
Theorem closed_transport_is_unusable
    (env : Env) (fuel : nat) (frame_data : bytes) (io : IO) (w : World)
    (l : list pyexc) :
  hangup_errors_are_os_errors env ->
  _exceptions io = Some l ->
  frame_data <> [] ->
  let why := Exc socket_error [VStr "connection/socket error"] in
  let reported := set_exceptions
                    (Some (l ++ [Exc AMQPConnectionError [VExc why]]))
                    (closed io) in
  exists w',
    close env io w = Ret tt (closed io) w'
    /\ write_to_socket env (S fuel) frame_data (closed io) w'
       = Ret tt reported w'
    /\ _receive env (closed io) w' = Ret EMPTY_BUFFER (set_running false reported) w'
    /\ _process_incoming_data env fuel (closed io) w' = Ret tt (closed io) w'.
Proof.
  intros Hhang Hsink Hdata why reported.
  exists (after_close env io w). split; [by apply close_swallows|].
  assert (Hlt : (0 <? length frame_data) = true)
    by (apply Nat.ltb_lt; destruct frame_data; [done|cbn; lia]).
  split; [|split].
  - unfold write_to_socket. cbn [write_loop]. rewrite Hlt.
    unfold bind at 1 2. rewrite write_body_no_socket by done. run.
    cbn. by rewrite Hsink.
  - unfold _receive. run. cbn. run. cbn. by rewrite Hsink.
  - by destruct fuel.
Qed.

Lemma closed_transport_is_unusable_witness :
  exists w',
    close Scene_broken_pipe.env Scene.opened Scene.quiet
    = Ret tt (closed Scene.opened) w'
    /\ write_to_socket Scene_broken_pipe.env 5 Scene.message (closed Scene.opened) w'
       = Ret tt
           (set_exceptions
              (Some [Exc AMQPConnectionError [VExc Scene_fatal.no_socket_why]])
              (closed Scene.opened))
           w'
    /\ _receive Scene_broken_pipe.env (closed Scene.opened) w'
       = Ret EMPTY_BUFFER
           (set_running false
              (set_exceptions
                 (Some [Exc AMQPConnectionError [VExc Scene_fatal.no_socket_why]])
                 (closed Scene.opened)))
           w'
    /\ _process_incoming_data Scene_broken_pipe.env 4 (closed Scene.opened) w'
       = Ret tt (closed Scene.opened) w'.
Proof.
  apply (closed_transport_is_unusable Scene_broken_pipe.env 4 Scene.message
           Scene.opened Scene.quiet []).
  - split; intros t e [= <-]; reflexivity.
  - reflexivity.
  - discriminate.
Defined.
